(** * Component adapters of the robot development kit

    A shallow embedding of three pieces of the repository and the
    properties its specification states about them:

    - [Base]   : package [base]: the [Base] interface, the
                 [reconfigurableBase] wrapper, [WrapWithReconfigurable]
                 and [DoMove];
    - [Servo]  : package [servo]: the gRPC client of the servo service;
    - [Sensor] : the sensor service server exercised by [server_test.go].

    Go values of interface type are modelled by a closed sum of the dynamic
    types that matter, pointers by locations of an explicit store, errors by
    [option string] ([None] is Go's [nil] error), and calls that leave the
    package (drivers, the connection, the logger) by events appended to a
    trace.  A driver's or a connection's answer is an arbitrary function of
    the trace so far, which covers every deterministic implementation. *)

From Stdlib Require Import ZArith String List Lia PrimFloat.
From stdpp Require Import base gmap strings list.

#[local] Open Scope string_scope.
#[local] Open Scope Z_scope.
#[local] Open Scope list_scope.

(** Go's [error]: [None] is [nil], [Some msg] an error whose [Error()] is
    [msg]. *)
Definition error := option string.

(** [strings.Contains]-style test used by the assertions of the test-suite
    ([test.ShouldContainSubstring]). *)
Fixpoint is_prefix (p s : string) : bool :=
  match p, s with
  | EmptyString, _ => true
  | String a p', String b s' => if Ascii.eqb a b then is_prefix p' s' else false
  | String _ _, EmptyString => false
  end.

Fixpoint contains (s sub : string) : bool :=
  if is_prefix sub s then true
  else match s with
       | EmptyString => false
       | String _ s' => contains s' sub
       end.

(* ===================================================================== *)
(** * Package [base] *)
(* ===================================================================== *)

Module Base.

(** Identity of a concrete driver object (a fake base, a wheeled base, ...):
    a value of a type that implements [Base] and is not the wrapper. *)
Definition driver := nat.

(** Address of a [reconfigurableBase] struct. *)
Definition loc := nat.

(** A method of the [Base] interface together with its arguments ([ctx] is
    dropped: the model is call-by-call and sequential).  Go's [int] is kept
    as [Z]: the package never computes with it, it only compares it with
    zero and passes it on. *)
Inductive call : Type :=
| CMoveStraight (distanceMillis : Z) (millisPerSec : float) (block : bool)
| CMoveArc (distanceMillis : Z) (millisPerSec degsPerSec : float) (block : bool)
| CSpin (angleDeg degsPerSec : float) (block : bool)
| CStop
| CWidthGet.

(** What a [Base] method returns: an [error], or for [WidthGet] an [int]
    with an [error]. *)
Inductive reply : Type :=
| RErr (e : error)
| RWidth (w : Z) (e : error).

Definition reply_err (r : reply) : error :=
  match r with RErr e => e | RWidth _ e => e end.

Definition reply_width (r : reply) : Z * error :=
  match r with RErr e => (0, e) | RWidth w e => (w, e) end.

(** What crosses the package boundary. *)
Inductive event : Type :=
| EvCall (d : driver) (c : call)          (* a Base method entered driver d *)
| EvClose (d : driver)                    (* d's Close method was invoked *)
| EvLog (msg : string) (err : string).    (* rlog.Logger.Errorw(msg, "error", err) *)

(** Dynamic values that can sit in an [interface{}], a [Base] or a
    [resource.Reconfigurable]. *)
Inductive value : Type :=
| VNil                                  (* the nil interface *)
| VString (s : string)                  (* a plain string such as "notBase" *)
| VDriver (d : driver)                  (* a concrete Base implementation *)
| VReconfigurableBase (r : option loc)  (* *reconfigurableBase; None is the nil pointer *)
| VForeign (typ : string).              (* any other type, e.g. the wrapper of
                                           another subtype: Reconfigurable, not Base *)

(** [r.(Base)]: the method set of the dynamic type contains [Base]'s. *)
Definition is_Base (v : value) : bool :=
  match v with
  | VDriver _ | VReconfigurableBase _ => true
  | VNil | VString _ | VForeign _ => false
  end.

(** The store: the [actual] field of every allocated [reconfigurableBase]
    (the mutex carries no data), and the trace of boundary events. *)
Record state : Type := mkState {
  heap : gmap loc value;
  trace : list event;
}.

Definition record (e : event) (σ : state) : state :=
  mkState (heap σ) (trace σ ++ [e]).

Definition set_actual (p : loc) (b : value) (σ : state) : state :=
  mkState (<[p := b]> (heap σ)) (trace σ).

(** Outcome of running a piece of Go code from a state. *)
Inductive outcome (A : Type) : Type :=
| Done (a : A) (σ : state)   (* returned a *)
| Panic (σ : state)          (* run-time panic: nil dereference, method on nil interface *)
| Diverge.                   (* wrappers nested deeper than the bound of the model *)
Arguments Done {A} a σ.
Arguments Panic {A} σ.
Arguments Diverge {A}.

Definition M (A : Type) : Type := state -> outcome A.

Definition ret {A} (a : A) : M A := fun σ => Done a σ.

Definition bind {A B} (m : M A) (k : A -> M B) : M B :=
  fun σ => match m σ with
           | Done a σ' => k a σ'
           | Panic σ' => Panic σ'
           | Diverge => Diverge
           end.

Definition panic {A} : M A := fun σ => Panic σ.

#[global] Instance M_ret : MRet M := @ret.
#[global] Instance M_bind : MBind M := fun A B k m => bind m k.

Definition emit (e : event) : M unit := fun σ => Done tt (record e σ).

(** State reached by an outcome, when there is one. *)
Definition final {A} (o : outcome A) : option state :=
  match o with Done _ σ | Panic σ => Some σ | Diverge => None end.

(** The drivers the program is linked with.  Each answer may depend on the
    whole history of boundary events before the call. *)
Record Drivers : Type := mkDrivers {
  drv_type : driver -> string;                 (* what %T prints *)
  drv_answer : driver -> list event -> call -> error;
  drv_width : driver -> list event -> Z;       (* the int of WidthGet *)
  drv_Close : driver -> option (list event -> error);  (* None: no Close method *)
}.

(** [newBase.( *reconfigurableBase)]: the dynamic type is the wrapper's
    (a nil pointer of that type included). *)
Definition is_reconfigurableBase (v : value) : bool :=
  match v with
  | VReconfigurableBase _ => true
  | VNil | VString _ | VDriver _ | VForeign _ => false
  end.

(** The driver a [Base] value ends at, through at most [depth] wrappers. *)
Fixpoint target (depth : nat) (h : gmap loc value) (b : value) : option driver :=
  match b with
  | VDriver d => Some d
  | VReconfigurableBase (Some p) =>
      match depth with
      | O => None
      | S k => match h !! p with
               | Some a => target k h a
               | None => None
               end
      end
  | VReconfigurableBase None | VNil | VString _ | VForeign _ => None
  end.

Definition is_Spin (e : event) : bool :=
  match e with EvCall _ (CSpin _ _ _) => true | _ => false end.

Definition is_MoveStraight (e : event) : bool :=
  match e with EvCall _ (CMoveStraight _ _ _) => true | _ => false end.

Section WithDrivers.

Variable E : Drivers.

(** [%T] of a value. *)
Definition type_name (v : value) : string :=
  match v with
  | VNil => "<nil>"
  | VString _ => "string"
  | VDriver d => drv_type E d
  | VReconfigurableBase _ => "*base.reconfigurableBase"
  | VForeign t => t
  end.

(** A method call entering driver [d]. *)
Definition drv_call (d : driver) (c : call) : M reply :=
  fun σ =>
    let e := drv_answer E d (trace σ) c in
    Done (match c with
          | CWidthGet => RWidth (drv_width E d (trace σ)) e
          | _ => RErr e
          end) (record (EvCall d c) σ).

(** [r.mu.RLock(); defer r.mu.RUnlock(); ... r.actual ...]: read the
    [actual] field of [*r] and continue with it.  A nil receiver panics at
    [r.mu].  The locks are not represented: one call runs at a time. *)
Definition with_actual {A} (r : option loc) (k : value -> M A) : M A :=
  fun σ =>
    match r with
    | None => Panic σ
    | Some p =>
        match heap σ !! p with
        | Some a => k a σ
        | None => Panic σ
        end
    end.

(** Dynamic dispatch of a [Base] method on an interface value.  On a
    [*reconfigurableBase] it runs the wrapper's method, which forwards to
    [r.actual]; [depth] bounds how many wrappers may be stacked. *)
Fixpoint invoke (depth : nat) (b : value) (c : call) : M reply :=
  match b with
  | VDriver d => drv_call d c
  | VReconfigurableBase r =>
      match depth with
      | O => fun _ => Diverge
      | S k => with_actual r (fun a => invoke k a c)
      end
  | VNil | VString _ | VForeign _ => panic
  end.

(** The five methods of the [Base] interface, called on an interface
    value. *)
Definition Base_MoveStraight (depth : nat) (b : value)
    (distanceMillis : Z) (millisPerSec : float) (block : bool) : M error :=
  r ← invoke depth b (CMoveStraight distanceMillis millisPerSec block); mret (reply_err r).

Definition Base_MoveArc (depth : nat) (b : value)
    (distanceMillis : Z) (millisPerSec degsPerSec : float) (block : bool) : M error :=
  r ← invoke depth b (CMoveArc distanceMillis millisPerSec degsPerSec block); mret (reply_err r).

Definition Base_Spin (depth : nat) (b : value)
    (angleDeg degsPerSec : float) (block : bool) : M error :=
  r ← invoke depth b (CSpin angleDeg degsPerSec block); mret (reply_err r).

Definition Base_Stop (depth : nat) (b : value) : M error :=
  r ← invoke depth b CStop; mret (reply_err r).

Definition Base_WidthGet (depth : nat) (b : value) : M (Z * error) :=
  r ← invoke depth b CWidthGet; mret (reply_width r).

(** The methods of [*reconfigurableBase]. *)

(** [func (r *reconfigurableBase) ProxyFor() interface{}] *)
Definition ProxyFor (r : option loc) : M value :=
  with_actual r (fun a => mret a).

(** [func (r *reconfigurableBase) MoveStraight(ctx, distanceMillis, millisPerSec, block) error] *)
Definition MoveStraight (depth : nat) (r : option loc)
    (distanceMillis : Z) (millisPerSec : float) (block : bool) : M error :=
  with_actual r (fun a => Base_MoveStraight depth a distanceMillis millisPerSec block).

(** [func (r *reconfigurableBase) MoveArc(ctx, distanceMillis, millisPerSec, degsPerSec, block) error] *)
Definition MoveArc (depth : nat) (r : option loc)
    (distanceMillis : Z) (millisPerSec degsPerSec : float) (block : bool) : M error :=
  with_actual r (fun a => Base_MoveArc depth a distanceMillis millisPerSec degsPerSec block).

(** [func (r *reconfigurableBase) Spin(ctx, angleDeg, degsPerSec, block) error] *)
Definition Spin (depth : nat) (r : option loc)
    (angleDeg degsPerSec : float) (block : bool) : M error :=
  with_actual r (fun a => Base_Spin depth a angleDeg degsPerSec block).

(** [func (r *reconfigurableBase) Stop(ctx) error] *)
Definition Stop (depth : nat) (r : option loc) : M error :=
  with_actual r (fun a => Base_Stop depth a).

(** [func (r *reconfigurableBase) WidthGet(ctx) (int, error)] *)
Definition WidthGet (depth : nat) (r : option loc) : M (Z * error) :=
  with_actual r (fun a => Base_WidthGet depth a).

(** [viamutils.TryClose(ctx, target)] of go.viam.com/utils: when the target
    has a Close method it is called and its error returned, otherwise
    nothing happens and the result is nil.  [*reconfigurableBase] declares
    no Close method. *)
Definition TryClose (target : value) : M error :=
  match target with
  | VDriver d =>
      match drv_Close E d with
      | Some close => fun σ => Done (close (trace σ)) (record (EvClose d) σ)
      | None => mret None
      end
  | VNil | VString _ | VReconfigurableBase _ | VForeign _ => mret None
  end.

(** Reading and writing the field [actual] of [*r]. *)
Definition read_actual (r : option loc) : M value := with_actual r mret.

Definition write_actual (r : option loc) (b : value) : M unit :=
  fun σ => match r with
           | Some p => Done tt (set_actual p b σ)
           | None => Panic σ
           end.

(** [func (r *reconfigurableBase) Reconfigure(ctx, newBase resource.Reconfigurable) error] *)
Definition Reconfigure (r : option loc) (newBase : value) : M error :=
  match r with
  | None => panic                                 (* r.mu.Lock() on a nil receiver *)
  | Some _ =>
      match newBase with
      | VReconfigurableBase actual =>             (* actual, ok := newBase.( *reconfigurableBase) *)
          old ← read_actual r;
          err ← TryClose old;
          _ ← match err with
              | Some e => emit (EvLog "error closing old" e)
              | None => mret tt
              end;
          b ← read_actual actual;                 (* actual.actual *)
          _ ← write_actual r b;                   (* r.actual = ... *)
          mret None
      | VNil | VString _ | VDriver _ | VForeign _ =>
          mret (Some ("expected new arm to be " +:+ type_name (VReconfigurableBase r)
                      +:+ " but got " +:+ type_name newBase))
      end
  end.

(** [&reconfigurableBase{actual: base}]: a new struct at an unused
    address. *)
Definition alloc (b : value) : M loc :=
  fun σ =>
    let p := fresh (dom (heap σ)) in
    Done p (set_actual p b σ).

(** [func WrapWithReconfigurable(r interface{}) (resource.Reconfigurable, error)] *)
Definition WrapWithReconfigurable (r : value) : M (value * error) :=
  if negb (is_Base r) then
    mret (VNil, Some ("expected resource to be Base but got " +:+ type_name r))
  else
    match r with
    | VReconfigurableBase _ => mret (r, None)
    | _ => p ← alloc r; mret (VReconfigurableBase (Some p), None)
    end.

(** [type Move struct] *)
Record Move : Type := mkMove {
  DistanceMillis : Z;
  MillisPerSec : float;
  AngleDeg : float;
  DegsPerSec : float;
  Block : bool;
}.

(** [func DoMove(ctx, move Move, base Base) error].  [!=] on [float64] is
    the IEEE comparison: a NaN differs from zero, minus zero does not. *)
Definition DoMove (depth : nat) (move : Move) (base : value) : M error :=
  err ← (if negb (PrimFloat.eqb (AngleDeg move) 0%float)
         then Base_Spin depth base (AngleDeg move) (DegsPerSec move) (Block move)
         else mret None);
  match err with
  | Some e => mret (Some e)
  | None =>
      if negb (Z.eqb (DistanceMillis move) 0)
      then Base_MoveStraight depth base (DistanceMillis move) (MillisPerSec move) (Block move)
      else mret None
  end.

End WithDrivers.

(** ** A concrete set of drivers

    Driver 0 is a fake base that accepts every call, is 600 mm wide and
    whose Close fails; driver 1 refuses to spin and has no Close method;
    every other driver accepts everything and closes cleanly. *)
Definition fakes : Drivers :=
  {| drv_type := fun _ => "*fake.Base";
     drv_answer := fun d _ c =>
       match d, c with
       | 1%nat, CSpin _ _ _ => Some "cannot spin"
       | _, _ => None
       end;
     drv_width := fun d _ => match d with 0%nat => 600 | _ => 0 end;
     drv_Close := fun d =>
       match d with
       | 0%nat => Some (fun _ => Some "close failed")
       | 1%nat => None
       | _ => Some (fun _ => None)
       end |}.

(** A store with wrapper 0 around driver 0 and wrapper 1 around driver 1. *)
Definition two_wrappers : state :=
  mkState (<[1%nat := VDriver 1%nat]> (<[0%nat := VDriver 0%nat]> ∅)) [].

(** ** Predicates on traces and stores *)

Definition is_call (e : event) : bool :=
  match e with EvCall _ _ => true | EvClose _ | EvLog _ _ => false end.

Definition is_Close (e : event) : bool :=
  match e with EvClose _ => true | EvCall _ _ | EvLog _ _ => false end.

(** No wrapper holds a wrapper. *)
Definition flat (h : gmap loc value) : Prop :=
  map_Forall (fun _ a => is_reconfigurableBase a = false) h.

End Base.

(* ===================================================================== *)
(** * Package [servo]: the gRPC client *)
(* ===================================================================== *)

Module Servo.

(** Go's conversions [uint8(x)] and [uint32(x)] between unsigned integer
    types: the value modulo the width of the target. *)
Definition uint8 (x : Z) : Z := x mod 2 ^ 8.
Definition uint32 (x : Z) : Z := x mod 2 ^ 32.

Definition is_uint8 (x : Z) : Prop := 0 <= x < 2 ^ 8.
Definition is_uint32 (x : Z) : Prop := 0 <= x < 2 ^ 32.

(** The messages of [servo.proto] that the client touches. *)
Record ServoServiceMoveRequest : Type := mkMoveRequest {
  MoveRequest_Name : string;
  MoveRequest_AngleDeg : Z;            (* uint32 *)
}.

Record ServoServiceAngularOffsetRequest : Type := mkAngularOffsetRequest {
  AngularOffsetRequest_Name : string;
}.

Record ServoServiceAngularOffsetResponse : Type := mkAngularOffsetResponse {
  AngularOffsetResponse_AngleDeg : Z;  (* uint32 *)
}.

(** Generated getter: zero on a nil message. *)
Definition GetAngleDeg (resp : option ServoServiceAngularOffsetResponse) : Z :=
  match resp with
  | Some m => AngularOffsetResponse_AngleDeg m
  | None => 0
  end.

(** What the client does to its connection. *)
Inductive wire_event : Type :=
| EvMove (req : ServoServiceMoveRequest)                    (* unary call ServoService.Move *)
| EvAngularOffset (req : ServoServiceAngularOffsetRequest)  (* unary call ServoService.AngularOffset *)
| EvConnClose.                                              (* conn.Close() *)

#[global] Instance MoveRequest_eq_dec : EqDecision ServoServiceMoveRequest.
Proof. solve_decision. Defined.
#[global] Instance AngularOffsetRequest_eq_dec : EqDecision ServoServiceAngularOffsetRequest.
Proof. solve_decision. Defined.
#[global] Instance wire_event_eq_dec : EqDecision wire_event.
Proof. solve_decision. Defined.

(** A [dialer.ClientConn] with the remote service behind it: what each
    unary call and [Close] answer after a given history of the
    connection. *)
Record ClientConn : Type := mkClientConn {
  conn_Move : list wire_event -> ServoServiceMoveRequest -> error;
  conn_AngularOffset : list wire_event -> ServoServiceAngularOffsetRequest ->
                       option ServoServiceAngularOffsetResponse * error;
  conn_Close : list wire_event -> error;
}.

(** Code runs against the history of the connection and extends it. *)
Definition RPC (A : Type) : Type := list wire_event -> A * list wire_event.

#[global] Instance RPC_ret : MRet RPC := fun A a h => (a, h).
#[global] Instance RPC_bind : MBind RPC :=
  fun A B k m h => let (a, h') := m h in k a h'.

(** The generated stub [pb.ServoServiceClient]: each method is one
    [Invoke] on the connection it was built from. *)
Record ServoServiceClient : Type := mkStub { cc : ClientConn }.

Definition NewServoServiceClient (conn : ClientConn) : ServoServiceClient :=
  mkStub conn.

Definition stub_Move (c : ServoServiceClient) (req : ServoServiceMoveRequest)
    : RPC (unit * error) :=
  fun h => ((tt, conn_Move (cc c) h req), h ++ [EvMove req]).

Definition stub_AngularOffset (c : ServoServiceClient)
    (req : ServoServiceAngularOffsetRequest)
    : RPC (option ServoServiceAngularOffsetResponse * error) :=
  fun h => (conn_AngularOffset (cc c) h req, h ++ [EvAngularOffset req]).

(** [type serviceClient struct] (the logger is never used by the methods
    below and carries no data here). *)
Record serviceClient : Type := mkServiceClient {
  conn : ClientConn;
  client_stub : ServoServiceClient;
  logger : unit;
}.

(** [func newSvcClientFromConn(conn, logger) *serviceClient] *)
Definition newSvcClientFromConn (conn : ClientConn) (logger : unit) : serviceClient :=
  let client := NewServoServiceClient conn in
  mkServiceClient conn client logger.

(** [func newServiceClient(ctx, address, opts, logger) ( *serviceClient, error)];
    [dial] stands for [grpc.Dial] with its options: it returns a connection
    and an error, and the connection is looked at only when the error is
    nil. *)
Definition newServiceClient (dial : string -> ClientConn * error)
    (address : string) (logger : unit) : option serviceClient * error :=
  let (conn, err) := dial address in
  match err with
  | Some e => (None, Some e)
  | None =>
      let sc := newSvcClientFromConn conn logger in
      (Some sc, None)
  end.

(** [func (sc *serviceClient) Close() error] *)
Definition Close (sc : serviceClient) : RPC error :=
  fun h => (conn_Close (conn sc) h, h ++ [EvConnClose]).

(** [type client struct { *serviceClient; name string }] *)
Record client : Type := mkClient {
  svc : serviceClient;
  name : string;
}.

(** [func clientFromSvcClient(sc, name) Servo] *)
Definition clientFromSvcClient (sc : serviceClient) (name : string) : client :=
  mkClient sc name.

(** [func NewClientFromConn(conn, name, logger) Servo] *)
Definition NewClientFromConn (conn : ClientConn) (name : string) (logger : unit) : client :=
  let sc := newSvcClientFromConn conn logger in
  clientFromSvcClient sc name.

(** [func NewClient(ctx, name, address, opts, logger) (Servo, error)] *)
Definition NewClient (dial : string -> ClientConn * error)
    (name address : string) (logger : unit) : option client * error :=
  let (sc, err) := newServiceClient dial address logger in
  match err, sc with
  | Some e, _ => (None, Some e)
  | None, Some sc => (Some (clientFromSvcClient sc name), None)
  | None, None => (None, None)   (* not reached: newServiceClient returns a client with a nil error *)
  end.

(** The request [Move] builds. *)
Definition Move_request (c : client) (angle : Z) : ServoServiceMoveRequest :=
  {| MoveRequest_AngleDeg := uint32 angle; MoveRequest_Name := name c |}.

(** [func (c *client) Move(ctx, angle uint8) error] *)
Definition Move (c : client) (angle : Z) : RPC error :=
  let req := Move_request c angle in
  '(_, err) ← stub_Move (client_stub (svc c)) req;
  match err with
  | Some e => mret (Some e)
  | None => mret None
  end.

(** [func (c *client) AngularOffset(ctx) (uint8, error)] *)
Definition AngularOffset (c : client) : RPC (Z * error) :=
  let req := {| AngularOffsetRequest_Name := name c |} in
  '(resp, err) ← stub_AngularOffset (client_stub (svc c)) req;
  match err with
  | Some e => mret (0, Some e)
  | None => mret (uint8 (GetAngleDeg resp), None)
  end.

(** Calling [Close] [k] times in a row; the errors are collected. *)
Fixpoint Close_times (k : nat) (sc : serviceClient) : RPC (list error) :=
  match k with
  | O => mret []
  | S k' => e ← Close sc; es ← Close_times k' sc; mret (e :: es)
  end.

(** How often the connection was closed in a history. *)
Definition closes (h : list wire_event) : nat :=
  length (filter (fun e => e = EvConnClose) h).

(** ** Concrete connections

    [quiet_conn] is an in-process connection whose calls always succeed and
    whose servo stands at wire angle 300; [grpc_like_conn] behaves like a
    gRPC connection: once closed, every call and every further [Close]
    reports that the connection is closing. *)
Definition quiet_conn : ClientConn :=
  {| conn_Move := fun _ _ => None;
     conn_AngularOffset := fun _ _ => (Some (mkAngularOffsetResponse 300), None);
     conn_Close := fun _ => None |}.

Definition closing : string := "grpc: the client connection is closing".

Definition grpc_like_conn : ClientConn :=
  {| conn_Move := fun h _ =>
       if decide (EvConnClose ∈ h) then Some closing else None;
     conn_AngularOffset := fun h _ =>
       if decide (EvConnClose ∈ h) then (None, Some closing)
       else (Some (mkAngularOffsetResponse 90), None);
     conn_Close := fun h =>
       if decide (EvConnClose ∈ h) then Some closing else None |}.

(** ** Sequences of calls on one client *)

Inductive op : Type :=
| OpMove (angle : Z)
| OpAngularOffset
| OpClose.

#[global] Instance op_eq_dec : EqDecision op.
Proof. solve_decision. Defined.

(** The one thing each call does to the connection. *)
Definition sent (c : client) (o : op) : wire_event :=
  match o with
  | OpMove a => EvMove (Move_request c a)
  | OpAngularOffset => EvAngularOffset (mkAngularOffsetRequest (name c))
  | OpClose => EvConnClose
  end.

Definition run_op (c : client) (o : op) : RPC unit :=
  match o with
  | OpMove a => _ ← Move c a; mret tt
  | OpAngularOffset => _ ← AngularOffset c; mret tt
  | OpClose => _ ← Close (svc c); mret tt
  end.

Fixpoint run_ops (c : client) (os : list op) : RPC unit :=
  match os with
  | [] => mret tt
  | o :: os' => _ ← run_op c o; run_ops c os'
  end.

(** A servo service that reports the angle it was last moved to (zero
    before any move). *)
Definition last_angle (h : list wire_event) : Z :=
  fold_left (fun acc e => match e with
                          | EvMove req => MoveRequest_AngleDeg req
                          | EvAngularOffset _ | EvConnClose => acc
                          end) h 0.

Definition echo_conn : ClientConn :=
  {| conn_Move := fun _ _ => None;
     conn_AngularOffset := fun h _ => (Some (mkAngularOffsetResponse (last_angle h)), None);
     conn_Close := fun _ => None |}.

Definition failing_dial (address : string) : ClientConn * error :=
  (quiet_conn, Some ("dial " +:+ address +:+ ": connection refused")).

Definition echo_dial (address : string) : ClientConn * error := (echo_conn, None).

End Servo.

(* ===================================================================== *)
(** * The sensor service server and its test *)
(* ===================================================================== *)

Module Sensor.

(** [resource.Name]: namespace, resource type, subtype and instance name,
    compared structurally. *)
Record Name : Type := mkName {
  Namespace : string;
  ResourceType : string;
  ResourceSubtype : string;
  ShortName : string;
}.

#[global] Instance Name_eq_dec : EqDecision Name.
Proof. solve_decision. Defined.

#[global] Instance Name_countable : Countable Name.
Proof.
  refine (inj_countable'
            (fun n => (Namespace n, ResourceType n, ResourceSubtype n, ShortName n))
            (fun t => mkName t.1.1.1 t.1.1.2 t.1.2 t.2) _).
  by intros [].
Defined.

(** Modelled from the spec: [sensor.Named] is not among the sources; a
    resource name is built from the subtype and the instance name, the
    subtype of this package being the generic sensor. *)
Definition Named (name : string) : Name :=
  mkName "rdk" "component" "sensor" name.

(** Elements of the [[]interface{}] a sensor returns, and the
    [structpb.Value] each becomes on the wire ([structpb.NewValue]). *)
Inductive reading : Type :=
| RNumber (f : float)
| RString (s : string)
| RBool (b : bool).

Inductive pbValue : Type :=
| NumberValue (f : float)
| StringValue (s : string)
| BoolValue (b : bool).

Definition NewValue (r : reading) : pbValue :=
  match r with
  | RNumber f => NumberValue f
  | RString s => StringValue s
  | RBool b => BoolValue b
  end.

(** What the type-erased registry can hold: a pointer to an
    [inject.Sensor], or something that is no sensor at all. *)
Definition sensor_ptr := nat.

Inductive resource : Type :=
| ASensor (p : sensor_ptr)
| AString (s : string).

(** The [ReadingsFunc] field of every [inject.Sensor]; a pointer without
    an entry has a nil [ReadingsFunc].  The functions of the test ignore
    their context and return constants. *)
Definition ReadingsFunc : Type := list reading * error.

(** Modelled from the spec: [subtype.New] is not among the sources; it
    accepts a mapping from resource names to opaque instances and rejects
    it when two entries collide on a name. *)
Fixpoint New (entries : list (Name * resource))
    : option (gmap Name resource) * error :=
  match entries with
  | [] => (Some ∅, None)
  | (n, r) :: rest =>
      match New rest with
      | (Some m, None) =>
          match m !! n with
          | Some _ => (None, Some ("duplicate resource name " +:+ ShortName n))
          | None => (Some (<[n := r]> m), None)
          end
      | (_, err) => (None, err)
      end
  end.

(** Outcome of one unary call on the server. *)
Inductive rpc_result : Type :=
| Reply (readings : list pbValue)    (* response, nil error *)
| Failure (msg : string)             (* nil response, error with this message *)
| Crash.                             (* the handler panicked *)

(** Modelled from the spec: the server adapter ([sensor.NewServer] and its
    [Readings] method) is not among the sources.  It resolves the requested
    name in the registry; an absent name fails with an error naming the
    subtype and the name; a hit that is not a sensor fails with a
    "not a <subtype>" error; otherwise the sensor is asked and its readings
    are marshalled, or its error is passed on with its message intact. *)
Record server : Type := mkServer { registry : gmap Name resource }.

Definition NewServer (s : gmap Name resource) : server := mkServer s.

Definition Readings (srv : server) (funcs : gmap sensor_ptr ReadingsFunc)
    (req_name : string) : rpc_result :=
  match registry srv !! Named req_name with
  | None => Failure ("no generic sensor named " +:+ req_name)
  | Some (AString _) => Failure "not a generic sensor"
  | Some (ASensor p) =>
      match funcs !! p with
      | None => Crash
      | Some (_, Some e) => Failure e
      | Some (rs, None) => Reply (NewValue <$> rs)
      end
  end.

(** ** [server_test.go] *)

Definition testSensorName := "sensor1".
Definition failSensorName := "sensor2".
Definition fakeSensorName := "sensor3".
Definition missingSensorName := "sensor4".

(** [func newServer() (pb.SensorServiceServer, *inject.Sensor, *inject.Sensor, error)] *)
Definition newServer : option server * sensor_ptr * sensor_ptr * error :=
  let injectSensor : sensor_ptr := 0%nat in
  let injectSensor2 : sensor_ptr := 1%nat in
  let sensors :=
    [ (Named testSensorName, ASensor injectSensor);
      (Named failSensorName, ASensor injectSensor2);
      (Named fakeSensorName, AString "notSensor") ] in
  match New sensors with
  | (_, Some err) => (None, 0%nat, 0%nat, Some err)
  | (None, None) => (None, 0%nat, 0%nat, None)
  | (Some sensorSvc, None) => (Some (NewServer sensorSvc), injectSensor, injectSensor2, None)
  end.

#[local] Set Warnings "-inexact-float".

(** [rs := []interface{}{1.1, 2.2}] *)
Definition rs : list reading := [RNumber 1.1%float; RNumber 2.2%float].

(** The two assignments to [ReadingsFunc] at the start of [TestServer]. *)
Definition test_funcs (injectSensor injectSensor2 : sensor_ptr)
    : gmap sensor_ptr ReadingsFunc :=
  <[injectSensor2 := ([], Some "can't get readings")]>
    (<[injectSensor := (rs, None)]> ∅).

(** [expected]: every element of [rs] through [structpb.NewValue]. *)
Definition expected : list pbValue := NewValue <$> rs.

(** The four requests of the sub-test "Readings", in order. *)
Definition TestServer_Readings : option (list rpc_result) :=
  match newServer with
  | (Some sensorServer, injectSensor, injectSensor2, None) =>
      let funcs := test_funcs injectSensor injectSensor2 in
      Some (Readings sensorServer funcs <$>
              [testSensorName; failSensorName; fakeSensorName; missingSensorName])
  | _ => None
  end.

(** [test.ShouldContainSubstring] on the error of a failed call. *)
Definition fails_with (r : rpc_result) (sub : string) : bool :=
  match r with
  | Failure msg => contains msg sub
  | Reply _ | Crash => false
  end.

#[local] Set Warnings "+inexact-float".

End Sensor.

(* ===================================================================== *)
(** * Package [fake]: the fake input controller *)
(* ===================================================================== *)

Module FakeInput.

(** [input.Control] and [input.EventType] are string types; an
    [input.Event] carries a time stamp, its type, the control and a value. *)
Definition Control := string.
Definition EventType := string.

Record Event : Type := mkEvent {
  Event_Time : Z;
  Event_Event : EventType;
  Event_Control : Control;
  Event_Value : float;
}.

(** [type Config struct { controls []input.Control }] *)
Record Config : Type := mkConfig { controls : list Control }.

(** What [config.Component.ConvertedAttributes], an [interface{}], can
    hold: nothing, a [*Config] (possibly the nil pointer), or a value of
    another type. *)
Inductive attributes : Type :=
| AttrNil
| AttrConfig (c : option Config)
| AttrOther (typ : string).

(** [type InputController struct]; the mutex carries no data.  The Go zero
    values (empty name, nil slice, nil map) are the empty string, list and
    map. *)
Record InputController : Type := mkInputController {
  Name : string;
  ic_controls : list Control;
  lastEvents : gmap Control Event;
}.

(** [func NewInputController(ctx, r, config, logger) (input.Controller, error)];
    [None] is the panic of the unchecked assertion
    [config.ConvertedAttributes.( *Config)] or of reading through a nil
    [*Config]. *)
Definition NewInputController (ConvertedAttributes : attributes)
    : option (InputController * error) :=
  let c := mkInputController "" [] ∅ in
  match ConvertedAttributes with
  | AttrConfig (Some conf) =>
      Some (mkInputController (Name c) (controls conf) (lastEvents c), None)
  | AttrConfig None | AttrNil | AttrOther _ => None
  end.

(** [func (c *InputController) Controls(ctx) ([]input.Control, error)] *)
Definition Controls (c : InputController) : list Control * error :=
  (ic_controls c, None).

(** [func (c *InputController) LastEvents(ctx) (map[input.Control]input.Event, error)] *)
Definition LastEvents (c : InputController) : gmap Control Event * error :=
  (lastEvents c, None).

(** [func (c *InputController) RegisterControlCallback(ctx, control, triggers, ctrlFunc) error];
    the controller is returned with the result since the method has a
    pointer receiver. *)
Definition RegisterControlCallback {F : Type} (c : InputController)
    (control : Control) (triggers : list EventType) (ctrlFunc : F)
    : error * InputController :=
  (Some "unsupported", c).

(** Calls a user can make on a controller, and a run of them that collects
    what each returned. *)
Inductive request : Type :=
| ReqControls
| ReqLastEvents
| ReqRegister (control : Control) (triggers : list EventType).

Inductive response : Type :=
| RespControls (cs : list Control) (e : error)
| RespLastEvents (m : gmap Control Event) (e : error)
| RespRegister (e : error).

Definition serve (c : InputController) (q : request) : response * InputController :=
  match q with
  | ReqControls => let (cs, e) := Controls c in (RespControls cs e, c)
  | ReqLastEvents => let (m, e) := LastEvents c in (RespLastEvents m e, c)
  | ReqRegister control triggers =>
      let (e, c') := RegisterControlCallback c control triggers tt in
      (RespRegister e, c')
  end.

Fixpoint serve_all (c : InputController) (qs : list request)
    : list response * InputController :=
  match qs with
  | [] => ([], c)
  | q :: qs' =>
      let (r, c') := serve c q in
      let (rs, c'') := serve_all c' qs' in
      (r :: rs, c'')
  end.

(** What a controller configured with [cs] is expected to answer. *)
Definition answer (cs : list Control) (q : request) : response :=
  match q with
  | ReqControls => RespControls cs None
  | ReqLastEvents => RespLastEvents ∅ None
  | ReqRegister _ _ => RespRegister (Some "unsupported")
  end.

End FakeInput.

(* ===================================================================== *)
(** * Properties of package [base] *)
(* ===================================================================== *)

Module BaseSpec.
Import Base.

(** Unfold the monad down to matches on outcomes. *)
Ltac run :=
  unfold read_actual, write_actual, with_actual, emit, panic,
    mbind, mret, M_bind, M_ret, bind, ret in *;
  simpl in *.

Section Facts.

Variable E : Drivers.

(** ** Dispatch *)

(** A wrapper value, seen through the interface, runs the wrapper's method:
    it reads [actual] and forwards. *)
Lemma invoke_wrapper depth p a c σ :
  heap σ !! p = Some a ->
  invoke E (S depth) (VReconfigurableBase (Some p)) c σ = invoke E depth a c σ.
Proof. intros Hp. simpl. unfold with_actual. by rewrite Hp. Qed.

(** A Base value that ends at driver [d] answers as [d] does. *)
Lemma invoke_target depth : forall b c σ d,
  target depth (heap σ) b = Some d ->
  invoke E depth b c σ = drv_call E d c σ.
Proof.
  induction depth as [|k IH]; intros b c σ d Ht.
  - destruct b as [| |d'|[p|]|]; simpl in *; congruence.
  - destruct b as [| |d'|[p|]|]; simpl in *; try congruence.
    unfold with_actual.
    destruct (heap σ !! p) as [a|] eqn:Hp; [|congruence].
    by apply IH.
Qed.

(** A Base value that ends nowhere (nil somewhere on the way, or wrappers
    beyond the bound) never reaches a driver: nothing is recorded. *)
Lemma invoke_no_target depth : forall b c σ,
  target depth (heap σ) b = None ->
  invoke E depth b c σ = Panic σ \/ invoke E depth b c σ = Diverge.
Proof.
  induction depth as [|k IH]; intros b c σ Ht.
  - destruct b as [| |d'|[p|]|]; simpl in *; try congruence; auto.
  - destruct b as [| |d'|[p|]|]; simpl in *; try congruence; auto.
    unfold with_actual.
    destruct (heap σ !! p) as [a|] eqn:Hp; auto.
Qed.

(** No Base method touches the store of wrappers. *)
Lemma invoke_heap depth : forall b c σ σ',
  final (invoke E depth b c σ) = Some σ' -> heap σ' = heap σ.
Proof.
  intros b c σ σ' Hf.
  destruct (target depth (heap σ) b) as [d|] eqn:Ht.
  - rewrite (invoke_target _ _ _ _ _ Ht) in Hf. simpl in Hf. by inversion Hf.
  - destruct (invoke_no_target _ _ c _ Ht) as [H|H]; rewrite H in Hf;
      simpl in Hf; by inversion Hf.
Qed.

(** ** The domain methods of the wrapper *)

(** C5.  Every domain method of a wrapper holding [a] ([MoveStraight],
    [MoveArc], [Spin], [Stop], [WidthGet]), called with any arguments in any
    state, has exactly the outcome of the same method of [a] with the same
    arguments: same value, same error, same effects.  The same holds when
    the wrapper is called through the [Base] interface. *)
Theorem wrapper_forwards depth (p : loc) (a : value) (σ : state) :
  heap σ !! p = Some a ->
  (forall dist mps block,
      MoveStraight E depth (Some p) dist mps block σ
      = Base_MoveStraight E depth a dist mps block σ) /\
  (forall dist mps dps block,
      MoveArc E depth (Some p) dist mps dps block σ
      = Base_MoveArc E depth a dist mps dps block σ) /\
  (forall angle dps block,
      Spin E depth (Some p) angle dps block σ
      = Base_Spin E depth a angle dps block σ) /\
  Stop E depth (Some p) σ = Base_Stop E depth a σ /\
  WidthGet E depth (Some p) σ = Base_WidthGet E depth a σ /\
  (forall c, invoke E (S depth) (VReconfigurableBase (Some p)) c σ
             = invoke E depth a c σ).
Proof.
  intros Hp.
  unfold MoveStraight, MoveArc, Spin, Stop, WidthGet, with_actual.
  rewrite Hp. repeat split; try reflexivity.
  intros c. by apply invoke_wrapper.
Qed.

(** When [a] is a driver the forwarded call is the one the driver sees, and
    the wrapper returns the driver's answer. *)
Lemma wrapper_forwards_to_driver depth p d σ dist mps block :
  heap σ !! p = Some (VDriver d) ->
  MoveStraight E depth (Some p) dist mps block σ
  = Done (drv_answer E d (trace σ) (CMoveStraight dist mps block))
         (record (EvCall d (CMoveStraight dist mps block)) σ).
Proof.
  intros Hp. unfold MoveStraight, with_actual. rewrite Hp.
  unfold Base_MoveStraight. destruct depth; reflexivity.
Qed.

(** ** Reconfigure *)

(** C2.  Reconfiguring a wrapper that holds [a] with a value that is not a
    [*reconfigurableBase] returns a non-nil error and changes nothing: the
    wrapper still holds [a], no event was recorded (so [a]'s Close was not
    invoked), and every later domain call on the wrapper goes to [a]. *)
Theorem Reconfigure_mismatch (p : loc) (a v : value) (σ : state) :
  heap σ !! p = Some a ->
  is_reconfigurableBase v = false ->
  exists msg σ',
    Reconfigure E (Some p) v σ = Done (Some msg) σ' /\
    heap σ' !! p = Some a /\
    trace σ' = trace σ /\
    ProxyFor (Some p) σ' = Done a σ' /\
    (forall depth c,
        invoke E (S depth) (VReconfigurableBase (Some p)) c σ'
        = invoke E depth a c σ').
Proof.
  intros Hp Hv.
  exists ("expected new arm to be *base.reconfigurableBase but got " +:+ type_name E v), σ.
  split.
  { destruct v; simpl in Hv; try discriminate; reflexivity. }
  repeat split; try done.
  - unfold ProxyFor, with_actual. by rewrite Hp.
  - intros depth c. by apply invoke_wrapper.
Qed.

(** [TryClose] records at most Close events and leaves the store alone. *)
Lemma TryClose_total a σ :
  exists err evs, TryClose E a σ = Done err (mkState (heap σ) (trace σ ++ evs)).
Proof.
  destruct σ as [h t].
  destruct a as [| |d| |]; simpl;
    try (exists None, []; run; by rewrite app_nil_r).
  destruct (drv_Close E d) as [close|].
  - by exists (close t), [EvClose d].
  - exists None, []. run. by rewrite app_nil_r.
Qed.

(** What [Reconfigure] does with a wrapper as replacement, step by step. *)
Lemma Reconfigure_wrapper p q a b σ err σ1 :
  heap σ !! p = Some a ->
  heap σ !! q = Some b ->
  TryClose E a σ = Done err σ1 ->
  Reconfigure E (Some p) (VReconfigurableBase (Some q)) σ
  = Done None (set_actual p b
                 (match err with
                  | Some e => record (EvLog "error closing old" e) σ1
                  | None => σ1
                  end)).
Proof.
  intros Hp Hq Hc.
  destruct (TryClose_total a σ) as (err' & evs & Hc').
  rewrite Hc in Hc'. inversion Hc'; subst err' σ1. clear Hc'.
  unfold Reconfigure. run. rewrite Hp, Hc. simpl.
  destruct err as [e|]; simpl; by rewrite Hq.
Qed.

(** C3.  Reconfiguring a wrapper that holds [a] with a wrapper that holds
    [b] returns nil; afterwards the wrapper holds [b]: [ProxyFor] returns
    [b], every domain call on it goes to [b], and unless [b] is [a] itself
    it no longer holds [a].  Other wrappers are untouched. *)
Theorem Reconfigure_swap (p q : loc) (a b : value) (σ : state) :
  heap σ !! p = Some a ->
  heap σ !! q = Some b ->
  exists σ',
    Reconfigure E (Some p) (VReconfigurableBase (Some q)) σ = Done None σ' /\
    heap σ' = <[p := b]> (heap σ) /\
    ProxyFor (Some p) σ' = Done b σ' /\
    (forall depth c,
        invoke E (S depth) (VReconfigurableBase (Some p)) c σ'
        = invoke E depth b c σ') /\
    (a <> b -> ProxyFor (Some p) σ' <> Done a σ').
Proof.
  intros Hp Hq.
  destruct (TryClose_total a σ) as (err & evs & Hc).
  eexists. split; [by apply (Reconfigure_wrapper _ _ _ _ _ _ _ Hp Hq Hc)|].
  set (σ' := set_actual p b _).
  assert (Hh : heap σ' = <[p := b]> (heap σ)).
  { subst σ'. destruct err; reflexivity. }
  assert (Hb : heap σ' !! p = Some b).
  { rewrite Hh. apply lookup_insert_eq. }
  repeat split; try done.
  - unfold ProxyFor, with_actual. by rewrite Hb.
  - intros depth c. by apply invoke_wrapper.
  - intros Hab. unfold ProxyFor, with_actual. rewrite Hb. run. congruence.
Qed.

(** C4.  When releasing the previous instance fails during [Reconfigure]
    with a wrapper as replacement, the failure is logged and not returned:
    the result is nil, the log entry carries the error, and the wrapper
    holds the replacement's instance afterwards. *)
Theorem Reconfigure_close_failure (p q : loc) (a b : value) (σ σ1 : state) (e : string) :
  heap σ !! p = Some a ->
  heap σ !! q = Some b ->
  TryClose E a σ = Done (Some e) σ1 ->
  exists σ',
    Reconfigure E (Some p) (VReconfigurableBase (Some q)) σ = Done None σ' /\
    trace σ' = trace σ1 ++ [EvLog "error closing old" e] /\
    heap σ' = <[p := b]> (heap σ) /\
    ProxyFor (Some p) σ' = Done b σ'.
Proof.
  intros Hp Hq Hc.
  rewrite (Reconfigure_wrapper _ _ _ _ _ _ _ Hp Hq Hc).
  destruct (TryClose_total a σ) as (err & evs & Hc').
  rewrite Hc in Hc'. inversion Hc'; subst. clear Hc'.
  eexists. split; [reflexivity|]. simpl.
  repeat split.
  unfold ProxyFor, with_actual. simpl. by rewrite lookup_insert_eq.
Qed.

(** ** WrapWithReconfigurable *)

(** C9.  [WrapWithReconfigurable] returns a value that already is a
    [*reconfigurableBase] as it is, allocating nothing; for any other value
    satisfying [Base] it returns a wrapper at a new address that holds the
    value; for a value that does not satisfy [Base] it returns a non-nil
    error and the nil wrapper.  Wrapping what a successful call returned
    gives it back unchanged. *)
Theorem WrapWithReconfigurable_spec (v : value) (σ : state) :
  (is_reconfigurableBase v = true ->
   WrapWithReconfigurable E v σ = Done (v, None) σ) /\
  (is_Base v = true -> is_reconfigurableBase v = false ->
   exists p,
     heap σ !! p = None /\
     WrapWithReconfigurable E v σ
     = Done (VReconfigurableBase (Some p), None) (set_actual p v σ) /\
     ProxyFor (Some p) (set_actual p v σ) = Done v (set_actual p v σ)) /\
  (is_Base v = false ->
   exists msg, WrapWithReconfigurable E v σ = Done (VNil, Some msg) σ) /\
  (forall w σ',
      WrapWithReconfigurable E v σ = Done (w, None) σ' ->
      WrapWithReconfigurable E w σ' = Done (w, None) σ').
Proof.
  repeat split.
  - destruct v; simpl; intros; try discriminate; reflexivity.
  - intros Hb Hw. exists (fresh (dom (heap σ))).
    split; [apply not_elem_of_dom, is_fresh|].
    split.
    + destruct v; simpl in *; try discriminate; reflexivity.
    + unfold ProxyFor, with_actual. simpl. by rewrite lookup_insert_eq.
  - intros Hb. unfold WrapWithReconfigurable. rewrite Hb. simpl. eauto.
  - intros w σ' H. destruct v; simpl in H; run; inversion H; reflexivity.
Qed.

(** ** DoMove *)

(** Calls at the driver boundary leave the store alone and append one
    event. *)
Lemma Base_Spin_target depth b σ d angle dps block :
  target depth (heap σ) b = Some d ->
  Base_Spin E depth b angle dps block σ
  = Done (drv_answer E d (trace σ) (CSpin angle dps block))
         (record (EvCall d (CSpin angle dps block)) σ).
Proof.
  intros Ht. unfold Base_Spin. run. by rewrite (invoke_target _ _ _ _ _ Ht).
Qed.

Lemma Base_MoveStraight_target depth b σ d dist mps block :
  target depth (heap σ) b = Some d ->
  Base_MoveStraight E depth b dist mps block σ
  = Done (drv_answer E d (trace σ) (CMoveStraight dist mps block))
         (record (EvCall d (CMoveStraight dist mps block)) σ).
Proof.
  intros Ht. unfold Base_MoveStraight. run. by rewrite (invoke_target _ _ _ _ _ Ht).
Qed.

(** On a value that reaches no driver a method panics (or runs out of
    depth) on the spot. *)
Lemma Base_method_no_target depth b c σ (f : reply -> error) :
  target depth (heap σ) b = None ->
  forall σ', final ((r ← invoke E depth b c; mret (f r)) σ) = Some σ' -> σ' = σ.
Proof.
  intros Ht σ'. run.
  destruct (invoke_no_target depth b c σ Ht) as [H|H]; rewrite H; simpl; congruence.
Qed.

(** C10.  [DoMove] on a base that ends at driver [d] makes these calls on
    [d] and no others: [Spin] exactly when [AngleDeg] differs from zero,
    then [MoveStraight] exactly when [DistanceMillis] differs from zero and
    [Spin] (if called) returned nil.  An error of [Spin] is what [DoMove]
    returns, without any [MoveStraight]; with zero distance there is no
    [MoveStraight] call at all.  On a base that reaches no driver nothing
    is called. *)
Theorem DoMove_calls depth (m : Move) (b : value) (σ : state) :
  let spin := negb (PrimFloat.eqb (AngleDeg m) 0%float) in
  let straight := negb (DistanceMillis m =? 0) in
  match target depth (heap σ) b with
  | Some d =>
      let cs := EvCall d (CSpin (AngleDeg m) (DegsPerSec m) (Block m)) in
      let cm := EvCall d (CMoveStraight (DistanceMillis m) (MillisPerSec m) (Block m)) in
      let spin_err :=
        if spin
        then drv_answer E d (trace σ) (CSpin (AngleDeg m) (DegsPerSec m) (Block m))
        else None in
      exists err calls,
        DoMove E depth m b σ = Done err (mkState (heap σ) (trace σ ++ calls)) /\
        calls = (if spin then [cs] else [])
                ++ (if straight && bool_decide (spin_err = None) then [cm] else []) /\
        (forall e, spin_err = Some e -> err = Some e /\ calls = [cs]) /\
        (PrimFloat.eqb (AngleDeg m) 0%float = true -> filter is_Spin calls = []) /\
        (DistanceMillis m = 0 -> filter is_MoveStraight calls = [])
  | None =>
      forall σ', final (DoMove E depth m b σ) = Some σ' -> σ' = σ
  end.
Proof.
  intros spin straight.
  destruct (target depth (heap σ) b) as [d|] eqn:Ht.
  - intros cs cm spin_err. unfold DoMove. fold spin straight.
    unfold mbind, M_bind, bind.
    destruct spin eqn:Hs.
    + rewrite (Base_Spin_target _ _ _ _ _ _ _ Ht).
      subst spin_err. simpl.
      destruct (drv_answer E d (trace σ) (CSpin _ _ _)) as [e|] eqn:Ha.
      * exists (Some e), [cs]. simpl.
        rewrite andb_false_r. repeat split; try congruence.
        -- intros H0. subst spin. rewrite H0 in Hs. discriminate.
      * destruct straight eqn:Hd.
        -- rewrite Base_MoveStraight_target with (d := d) by exact Ht.
           eexists _, [cs; cm]. unfold record. simpl. rewrite <- app_assoc. simpl.
           repeat split; try congruence.
           ++ intros H0. subst spin. rewrite H0 in Hs. discriminate.
           ++ intros H0. subst straight. rewrite H0 in Hd. discriminate.
        -- exists None, [cs]. simpl. repeat split; try congruence.
           intros H0. subst spin. rewrite H0 in Hs. discriminate.
    + subst spin_err. simpl. unfold mret, M_ret, ret.
      destruct straight eqn:Hd.
      * rewrite Base_MoveStraight_target with (d := d) by exact Ht.
        eexists _, [cm]. simpl. repeat split; try congruence.
        intros H0. subst straight. rewrite H0 in Hd. discriminate.
      * exists None, []. simpl. rewrite app_nil_r. destruct σ; repeat split; congruence.
  - intros σ'. unfold DoMove. fold spin straight.
    unfold mbind at 1. unfold M_bind, bind.
    destruct spin.
    + unfold Base_Spin.
      destruct (invoke_no_target depth b
                  (CSpin (AngleDeg m) (DegsPerSec m) (Block m)) σ Ht) as [H|H];
        run; rewrite H; simpl; congruence.
    + run. destruct straight.
      * unfold Base_MoveStraight. run.
        destruct (invoke_no_target depth b
                    (CMoveStraight (DistanceMillis m) (MillisPerSec m) (Block m)) σ Ht)
          as [H|H]; rewrite H; simpl; congruence.
      * simpl. congruence.
Qed.

End Facts.

(** ** The theorems at work on the fake drivers *)

Lemma wrapper_forwards_witness :
  heap two_wrappers !! 0%nat = Some (VDriver 0%nat) /\
  WidthGet fakes 0 (Some 0%nat) two_wrappers
  = Done (600, None) (record (EvCall 0%nat CWidthGet) two_wrappers).
Proof.
  split; [reflexivity|].
  destruct (wrapper_forwards fakes 0 0%nat (VDriver 0%nat) two_wrappers eq_refl)
    as (_ & _ & _ & _ & H & _).
  exact (eq_trans H eq_refl).
Defined.

Lemma Reconfigure_mismatch_witness :
  heap two_wrappers !! 0%nat = Some (VDriver 0%nat) /\
  is_reconfigurableBase (VForeign "*arm.reconfigurableArm") = false /\
  exists msg σ',
    Reconfigure fakes (Some 0%nat) (VForeign "*arm.reconfigurableArm") two_wrappers
    = Done (Some msg) σ' /\
    heap σ' !! 0%nat = Some (VDriver 0%nat) /\
    trace σ' = [].
Proof.
  split; [reflexivity|]. split; [reflexivity|].
  destruct (Reconfigure_mismatch fakes 0%nat (VDriver 0%nat)
              (VForeign "*arm.reconfigurableArm") two_wrappers eq_refl eq_refl)
    as (msg & σ' & H1 & H2 & H3 & _).
  exists msg, σ'. auto.
Defined.

Lemma Reconfigure_swap_witness :
  heap two_wrappers !! 0%nat = Some (VDriver 0%nat) /\
  heap two_wrappers !! 1%nat = Some (VDriver 1%nat) /\
  exists σ',
    Reconfigure fakes (Some 0%nat) (VReconfigurableBase (Some 1%nat)) two_wrappers
    = Done None σ' /\
    ProxyFor (Some 0%nat) σ' = Done (VDriver 1%nat) σ'.
Proof.
  split; [reflexivity|]. split; [reflexivity|].
  destruct (Reconfigure_swap fakes 0%nat 1%nat (VDriver 0%nat) (VDriver 1%nat)
              two_wrappers eq_refl eq_refl)
    as (σ' & H1 & _ & H2 & _).
  exists σ'. auto.
Defined.

Lemma Reconfigure_close_failure_witness :
  heap two_wrappers !! 0%nat = Some (VDriver 0%nat) /\
  heap two_wrappers !! 1%nat = Some (VDriver 1%nat) /\
  TryClose fakes (VDriver 0%nat) two_wrappers
  = Done (Some "close failed") (record (EvClose 0%nat) two_wrappers) /\
  exists σ',
    Reconfigure fakes (Some 0%nat) (VReconfigurableBase (Some 1%nat)) two_wrappers
    = Done None σ' /\
    trace σ' = [EvClose 0%nat; EvLog "error closing old" "close failed"] /\
    ProxyFor (Some 0%nat) σ' = Done (VDriver 1%nat) σ'.
Proof.
  split; [reflexivity|]. split; [reflexivity|]. split; [reflexivity|].
  destruct (Reconfigure_close_failure fakes 0%nat 1%nat (VDriver 0%nat) (VDriver 1%nat)
              two_wrappers (record (EvClose 0%nat) two_wrappers) "close failed"
              eq_refl eq_refl eq_refl)
    as (σ' & H1 & H2 & _ & H3).
  exists σ'. auto.
Defined.

Lemma WrapWithReconfigurable_spec_witness :
  is_Base (VDriver 7%nat) = true /\
  is_reconfigurableBase (VDriver 7%nat) = false /\
  is_Base (VString "notBase") = false /\
  (exists p,
      heap two_wrappers !! p = None /\
      WrapWithReconfigurable fakes (VDriver 7%nat) two_wrappers
      = Done (VReconfigurableBase (Some p), None)
             (set_actual p (VDriver 7%nat) two_wrappers)) /\
  (exists msg,
      WrapWithReconfigurable fakes (VString "notBase") two_wrappers
      = Done (VNil, Some msg) two_wrappers).
Proof.
  split; [reflexivity|]. split; [reflexivity|]. split; [reflexivity|].
  split.
  - destruct (WrapWithReconfigurable_spec fakes (VDriver 7%nat) two_wrappers)
      as (_ & H & _).
    destruct (H eq_refl eq_refl) as (p & Hp & Hw & _). exists p. auto.
  - destruct (WrapWithReconfigurable_spec fakes (VString "notBase") two_wrappers)
      as (_ & _ & H & _).
    exact (H eq_refl).
Defined.

(** Driver 1 refuses to spin: [DoMove] through wrapper 1 stops there. *)
Lemma DoMove_calls_witness :
  DoMove fakes 1 (mkMove 100 50%float 90%float 45%float true)
         (VReconfigurableBase (Some 1%nat)) two_wrappers
  = Done (Some "cannot spin")
         (mkState (heap two_wrappers) [EvCall 1%nat (CSpin 90%float 45%float true)]).
Proof.
  pose proof (DoMove_calls fakes 1 (mkMove 100 50%float 90%float 45%float true)
                (VReconfigurableBase (Some 1%nat)) two_wrappers) as H.
  simpl in H.
  destruct H as (err & calls & H1 & H2 & H3 & _).
  destruct (H3 "cannot spin" eq_refl) as [-> ->].
  exact H1.
Defined.

End BaseSpec.

(* ===================================================================== *)
(** * Properties of the servo client *)
(* ===================================================================== *)

Module ServoSpec.
Import Servo.

(** ** The two integer conversions *)

Lemma uint8_range w : is_uint8 (uint8 w).
Proof. unfold is_uint8, uint8. apply Z.mod_pos_bound. lia. Qed.

Lemma uint8_low_bits w : uint8 w = Z.land w 255.
Proof. unfold uint8. change 255 with (Z.ones 8). rewrite Z.land_ones; lia. Qed.

Lemma uint8_id w : is_uint8 w -> uint8 w = w.
Proof. unfold is_uint8, uint8. intros H. apply Z.mod_small. lia. Qed.

Lemma uint32_id w : is_uint32 w -> uint32 w = w.
Proof. unfold is_uint32, uint32. intros H. apply Z.mod_small. lia. Qed.

Lemma uint8_is_uint32 a : is_uint8 a -> is_uint32 a.
Proof. unfold is_uint8, is_uint32. lia. Qed.

(** The narrowing drops the high bits; it does not saturate. *)
Example uint8_300 : uint8 300 = 44.
Proof. reflexivity. Qed.

(** ** AngularOffset *)

(** C6.  Whatever wire angle [w] the service returns, [AngularOffset]
    returns, with a nil error, the 8-bit value [w mod 256]: the low eight
    bits of [w], always within [0, 255], equal to [w] when [w] already fits.
    The conversion is a total function of [w] alone, so no wire value,
    above 255 or not, makes it fail. *)
Theorem AngularOffset_narrows (conn : ClientConn) (n : string) (h : list wire_event)
    (resp : option ServoServiceAngularOffsetResponse) :
  conn_AngularOffset conn h (mkAngularOffsetRequest n) = (resp, None) ->
  let w := GetAngleDeg resp in
  exists a,
    AngularOffset (NewClientFromConn conn n tt) h
    = ((a, None), h ++ [EvAngularOffset (mkAngularOffsetRequest n)]) /\
    a = w mod 2 ^ 8 /\
    a = Z.land w 255 /\
    is_uint8 a /\
    (is_uint8 w -> a = w).
Proof.
  intros Hc w. exists (uint8 w).
  split.
  { unfold AngularOffset, stub_AngularOffset, mbind, RPC_bind. simpl. by rewrite Hc. }
  split; [reflexivity|].
  split; [apply uint8_low_bits|].
  split; [apply uint8_range|apply uint8_id].
Qed.

Lemma AngularOffset_narrows_witness :
  conn_AngularOffset quiet_conn [] (mkAngularOffsetRequest "servo1")
  = (Some (mkAngularOffsetResponse 300), None) /\
  exists a,
    AngularOffset (NewClientFromConn quiet_conn "servo1" tt) []
    = ((a, None), [EvAngularOffset (mkAngularOffsetRequest "servo1")]) /\
    a = 44.
Proof.
  split; [reflexivity|].
  destruct (AngularOffset_narrows quiet_conn "servo1" [] _ eq_refl)
    as (a & H1 & H2 & _).
  exists a. split; [exact H1|exact H2].
Defined.

(** ** Move *)

(** C7.  The request [Move] sends for a client built with name [n] and an
    8-bit angle [a] is exactly [{Name: n, AngleDeg: a}]: the name is the one
    the client was given, the wire angle has the same value and the same
    bits as [a], and narrowing it back returns [a].  That request is what
    goes on the connection, and its answer is what [Move] returns. *)
Theorem Move_request_exact (conn : ClientConn) (n : string) (a : Z) (h : list wire_event) :
  is_uint8 a ->
  let c := NewClientFromConn conn n tt in
  let req := Move_request c a in
  req = mkMoveRequest n a /\
  MoveRequest_Name req = n /\
  MoveRequest_AngleDeg req = a /\
  (forall i, Z.testbit (MoveRequest_AngleDeg req) i = Z.testbit a i) /\
  uint8 (MoveRequest_AngleDeg req) = a /\
  Move c a h = (conn_Move conn h (mkMoveRequest n a), h ++ [EvMove (mkMoveRequest n a)]).
Proof.
  intros Ha c req.
  assert (Hreq : req = mkMoveRequest n a).
  { subst req c. unfold Move_request. simpl.
    by rewrite (uint32_id a (uint8_is_uint32 a Ha)). }
  split; [exact Hreq|].
  assert (Hm : Move c a h
               = (conn_Move conn h (mkMoveRequest n a), h ++ [EvMove (mkMoveRequest n a)])).
  { unfold Move. fold req. rewrite Hreq.
    unfold stub_Move, mbind, RPC_bind. simpl.
    by destruct (conn_Move conn h (mkMoveRequest n a)). }
  rewrite Hreq. simpl.
  repeat split; try done.
  by apply uint8_id.
Qed.

Lemma Move_request_exact_witness :
  is_uint8 200 /\
  Move (NewClientFromConn grpc_like_conn "servo1" tt) 200 []
  = (None, [EvMove (mkMoveRequest "servo1" 200)]).
Proof.
  assert (H : is_uint8 200) by (unfold is_uint8; lia).
  split; [exact H|].
  destruct (Move_request_exact grpc_like_conn "servo1" 200 [] H)
    as (_ & _ & _ & _ & _ & Hm).
  exact Hm.
Defined.

(** ** Close *)

Lemma closes_app h h' : closes (h ++ h') = (closes h + closes h')%nat.
Proof. unfold closes. by rewrite filter_app, length_app. Qed.

(** Every [Close] of the adapter is one [Close] of the connection. *)
Lemma Close_times_closes k : forall sc h,
  closes (Close_times k sc h).2 = (closes h + k)%nat.
Proof.
  induction k as [|k IH]; intros sc h; simpl.
  - unfold mret, RPC_ret. simpl. lia.
  - unfold mbind, RPC_bind, Close. simpl.
    destruct (Close_times k sc (h ++ [EvConnClose])) as [es h'] eqn:Hk.
    simpl. pose proof (IH sc (h ++ [EvConnClose])) as H. rewrite Hk in H. simpl in H.
    rewrite H, closes_app. unfold closes at 2. simpl. lia.
Qed.

(** C8, as stated, fails: two calls of [Close] close the connection twice,
    and on a connection that keeps answering, [Move] and [AngularOffset]
    after [Close] succeed. *)
Lemma Close_twice_closes_twice :
  let sc := newSvcClientFromConn quiet_conn tt in
  let c := clientFromSvcClient sc "servo1" in
  closes (Close_times 2 sc []).2 = 2%nat /\
  closes (Close_times 2 sc []).2 <> 1%nat /\
  (Move c 90 (Close sc []).2).1 = None /\
  (AngularOffset c (Close sc []).2).1 = (44, None).
Proof. vm_compute. repeat split; congruence. Qed.

(** C8, amended.  Each call of [Close] calls the connection's [Close] once
    and returns its result, so [k] calls close the connection [k] times.
    The adapter keeps no closed state: after any history, closed or not,
    [Move] and [AngularOffset] send their request and return the error the
    connection reports, unchanged. *)
Theorem Close_delegates (conn : ClientConn) (n : string) (h : list wire_event) :
  let sc := newSvcClientFromConn conn tt in
  let c := clientFromSvcClient sc n in
  Close sc h = (conn_Close conn h, h ++ [EvConnClose]) /\
  (forall k, closes (Close_times k sc h).2 = (closes h + k)%nat) /\
  (forall a, (Move c a h).1 = conn_Move conn h (Move_request c a)) /\
  (forall e, (conn_AngularOffset conn h (mkAngularOffsetRequest n)).2 = Some e ->
             (AngularOffset c h).1 = (0, Some e)).
Proof.
  intros sc c. split; [reflexivity|].
  split; [intros k; apply Close_times_closes|].
  split.
  - intros a. unfold Move, stub_Move, mbind, RPC_bind. simpl.
    by destruct (conn_Move conn h _).
  - intros e He. unfold AngularOffset, stub_AngularOffset, mbind, RPC_bind. simpl.
    destruct (conn_AngularOffset conn h _) as [resp err]. simpl in He. by subst err.
Qed.

(** On a connection that behaves like gRPC's, the calls after [Close] do
    fail, with the connection's own error. *)
Lemma Close_delegates_witness :
  let sc := newSvcClientFromConn grpc_like_conn tt in
  let c := clientFromSvcClient sc "servo1" in
  (conn_AngularOffset grpc_like_conn [EvConnClose] (mkAngularOffsetRequest "servo1")).2
  = Some closing /\
  (AngularOffset c [EvConnClose]).1 = (0, Some closing) /\
  (Move c 90 [EvConnClose]).1 = Some closing /\
  closes (Close_times 3 sc []).2 = 3%nat.
Proof.
  intros sc c.
  destruct (Close_delegates grpc_like_conn "servo1" [EvConnClose])
    as (_ & _ & Hm & Ha).
  split; [reflexivity|].
  split; [exact (Ha closing eq_refl)|].
  split; [exact (eq_trans (Hm 90) eq_refl)|].
  destruct (Close_delegates grpc_like_conn "servo1" []) as (_ & Hk & _).
  exact (Hk 3%nat).
Defined.

End ServoSpec.

(* ===================================================================== *)
(** * The sensor server under its test *)
(* ===================================================================== *)

Module SensorSpec.
Import Sensor.

(** An absent name fails with an error that names the subtype and the
    name. *)
Lemma Readings_absent srv funcs name :
  registry srv !! Named name = None ->
  Readings srv funcs name = Failure ("no generic sensor named " +:+ name).
Proof. intros H. unfold Readings. by rewrite H. Qed.

(** A hit that is no sensor fails before any sensor is asked. *)
Lemma Readings_wrong_kind srv funcs name s :
  registry srv !! Named name = Some (AString s) ->
  Readings srv funcs name = Failure "not a generic sensor".
Proof. intros H. unfold Readings. by rewrite H. Qed.

(** A sensor's own error reaches the caller with its message intact. *)
Lemma Readings_error_intact srv funcs name p rs e :
  registry srv !! Named name = Some (ASensor p) ->
  funcs !! p = Some (rs, Some e) ->
  Readings srv funcs name = Failure e.
Proof. intros H1 H2. unfold Readings. by rewrite H1, H2. Qed.

#[local] Set Warnings "-inexact-float".

(** C1.  With sensor1 a working sensor returning [1.1, 2.2], sensor2 a
    sensor failing with "can't get readings", sensor3 the string
    "notSensor" and no sensor4: the server is built without error, and the
    four requests of the test answer [1.1, 2.2], an error containing
    "can't get readings", an error containing "not a generic sensor" and an
    error containing "no generic sensor". *)
Theorem TestServer_Readings_passes :
  exists r1 r2 r3 r4,
    TestServer_Readings = Some [r1; r2; r3; r4] /\
    r1 = Reply [NumberValue 1.1%float; NumberValue 2.2%float] /\
    r1 = Reply expected /\
    fails_with r2 "can't get readings" = true /\
    fails_with r3 "not a generic sensor" = true /\
    fails_with r4 "no generic sensor" = true.
Proof.
  do 4 eexists. split; [vm_compute; reflexivity|].
  repeat split; vm_compute; reflexivity.
Qed.

#[local] Set Warnings "+inexact-float".

End SensorSpec.

(* ===================================================================== *)
(** * Further properties of package [base] *)
(* ===================================================================== *)

Module BaseMore.
Import Base BaseSpec.

Section Facts.

Variable E : Drivers.

(** [TryClose] on a value: nothing, or one Close of a driver that has the
    method, answered from the history before it. *)
Lemma TryClose_cases a σ :
  TryClose E a σ = Done None σ \/
  exists d close,
    a = VDriver d /\ drv_Close E d = Some close /\
    TryClose E a σ = Done (close (trace σ)) (record (EvClose d) σ).
Proof.
  destruct a as [| |d| |]; simpl; auto.
  destruct (drv_Close E d) as [close|] eqn:Hc; auto.
  right. by exists d, close.
Qed.

(** ** Reconfigure: what else it touches *)

(** X1.  A successful [Reconfigure] of the wrapper at [p] with the wrapper
    at [q] changes the field of [p] only: every other wrapper holds what it
    held, no wrapper is created or removed, and the replacement wrapper
    still holds its instance, which both wrappers now share. *)
Theorem Reconfigure_frame (p q : loc) (a b : value) (σ : state) :
  heap σ !! p = Some a ->
  heap σ !! q = Some b ->
  exists σ',
    Reconfigure E (Some p) (VReconfigurableBase (Some q)) σ = Done None σ' /\
    (forall p', p' <> p -> heap σ' !! p' = heap σ !! p') /\
    dom (heap σ') = dom (heap σ) /\
    heap σ' !! p = Some b /\
    heap σ' !! q = Some b.
Proof.
  intros Hp Hq.
  destruct (TryClose_total E a σ) as (err & evs & Hc).
  eexists. split; [by apply (Reconfigure_wrapper E _ _ _ _ _ _ _ Hp Hq Hc)|].
  set (σ' := set_actual p b _).
  assert (Hh : heap σ' = <[p := b]> (heap σ)) by (subst σ'; by destruct err).
  rewrite Hh. repeat split.
  - intros p' Hne. by rewrite lookup_insert_ne.
  - apply dom_insert_lookup_L. by rewrite Hp.
  - apply lookup_insert_eq.
  - destruct (decide (p = q)) as [->|Hne].
    + apply lookup_insert_eq.
    + by rewrite lookup_insert_ne.
Qed.

(** X2.  A successful [Reconfigure] of a wrapper around driver [d] records
    exactly this: one Close of [d] when [d] has a Close method, answered
    from the history before the call, followed by one log entry when that
    Close failed; nothing at all when [d] has no Close method. *)
Theorem Reconfigure_closes_old (p q : loc) (d : driver) (b : value) (σ : state) :
  heap σ !! p = Some (VDriver d) ->
  heap σ !! q = Some b ->
  exists σ',
    Reconfigure E (Some p) (VReconfigurableBase (Some q)) σ = Done None σ' /\
    trace σ' = trace σ ++
      match drv_Close E d with
      | Some close =>
          EvClose d :: match close (trace σ) with
                       | Some e => [EvLog "error closing old" e]
                       | None => []
                       end
      | None => []
      end.
Proof.
  intros Hp Hq.
  destruct (drv_Close E d) as [close|] eqn:Hd.
  - assert (Hc : TryClose E (VDriver d) σ
                 = Done (close (trace σ)) (record (EvClose d) σ))
      by (simpl; by rewrite Hd).
    eexists. split; [by apply (Reconfigure_wrapper E _ _ _ _ _ _ _ Hp Hq Hc)|].
    destruct (close (trace σ)); simpl; by rewrite <- ?app_assoc.
  - assert (Hc : TryClose E (VDriver d) σ = Done None σ)
      by (simpl; by rewrite Hd).
    eexists. split; [by apply (Reconfigure_wrapper E _ _ _ _ _ _ _ Hp Hq Hc)|].
    simpl. by rewrite app_nil_r.
Qed.

(** X3.  Reconfiguring a wrapper with itself succeeds and leaves the store
    as it was, but the instance it holds has been closed all the same: the
    wrapper goes on serving a closed driver. *)
Theorem Reconfigure_self (p : loc) (d : driver) (close : list event -> error) (σ : state) :
  heap σ !! p = Some (VDriver d) ->
  drv_Close E d = Some close ->
  exists σ',
    Reconfigure E (Some p) (VReconfigurableBase (Some p)) σ = Done None σ' /\
    heap σ' = heap σ /\
    filter is_Close (trace σ') = filter is_Close (trace σ) ++ [EvClose d] /\
    ProxyFor (Some p) σ' = Done (VDriver d) σ'.
Proof.
  intros Hp Hd.
  assert (Hc : TryClose E (VDriver d) σ
               = Done (close (trace σ)) (record (EvClose d) σ))
    by (simpl; by rewrite Hd).
  eexists. split; [by apply (Reconfigure_wrapper E _ _ _ _ _ _ _ Hp Hp Hc)|].
  set (σ' := set_actual p _ _).
  assert (Hh : heap σ' = heap σ).
  { subst σ'. destruct (close (trace σ)); simpl; by apply insert_id. }
  split; [exact Hh|]. split.
  - subst σ'. destruct (close (trace σ)); simpl;
      rewrite ?filter_app; simpl; by rewrite ?app_nil_r.
  - unfold ProxyFor, with_actual. by rewrite Hh, Hp.
Qed.

(** X4.  Reconfiguring with the nil [*reconfigurableBase] panics, and it
    does so after the held instance was handed to [TryClose]: the wrapper
    still holds that instance, closed if it could be. *)
Theorem Reconfigure_nil_replacement (p : loc) (a : value) (σ : state) :
  heap σ !! p = Some a ->
  exists err σ1,
    TryClose E a σ = Done err σ1 /\
    heap σ1 = heap σ /\
    Reconfigure E (Some p) (VReconfigurableBase None) σ
    = Panic (match err with
             | Some e => record (EvLog "error closing old" e) σ1
             | None => σ1
             end).
Proof.
  intros Hp.
  destruct (TryClose_total E a σ) as (err & evs & Hc).
  eexists err, _. split; [exact Hc|]. split; [reflexivity|].
  unfold Reconfigure. run. rewrite Hp, Hc. by destruct err.
Qed.

(** X5.  Whatever its arguments and however it ends, [Reconfigure] calls no
    domain method of any driver, closes at most one instance, and neither
    creates nor removes a wrapper. *)
Theorem Reconfigure_never_calls (r : option loc) (v : value) (σ σ' : state) :
  final (Reconfigure E r v σ) = Some σ' ->
  exists evs,
    trace σ' = trace σ ++ evs /\
    filter is_call evs = [] /\
    (length (filter is_Close evs) <= 1)%nat /\
    dom (heap σ') = dom (heap σ).
Proof.
  intros Hf.
  assert (Hsame : σ' = σ -> exists evs,
             trace σ' = trace σ ++ evs /\ filter is_call evs = [] /\
             (length (filter is_Close evs) <= 1)%nat /\ dom (heap σ') = dom (heap σ)).
  { intros ->. exists []. rewrite app_nil_r. simpl. repeat split; lia. }
  destruct r as [p|]; [|apply Hsame; simpl in Hf; congruence].
  destruct v as [| |d|actual|]; try (apply Hsame; simpl in Hf; congruence).
  unfold Reconfigure in Hf. run.
  destruct (heap σ !! p) as [a|] eqn:Hp; [|apply Hsame; simpl in Hf; congruence].
  destruct (TryClose_cases a σ) as [Hc|(d & close & -> & Hd & Hc)];
    rewrite Hc in Hf; simpl in Hf.
  - destruct actual as [q|]; [|apply Hsame; simpl in Hf; congruence].
    destruct (heap σ !! q) as [b|] eqn:Hq; simpl in Hf;
      [|apply Hsame; congruence].
    inversion Hf; subst σ'. exists []. simpl. rewrite app_nil_r.
    repeat split; try lia.
    apply dom_insert_lookup_L. by rewrite Hp.
  - destruct (close (trace σ)) as [e|]; simpl in Hf.
    + exists [EvClose d; EvLog "error closing old" e].
      destruct actual as [q|]; simpl in Hf.
      * destruct (heap σ !! q) as [b|] eqn:Hq; simpl in Hf;
          inversion Hf; subst σ'; simpl; rewrite <- ?app_assoc;
          repeat split; try lia.
        apply dom_insert_lookup_L. by rewrite Hp.
      * inversion Hf; subst σ'; simpl; rewrite <- ?app_assoc.
        repeat split; lia.
    + exists [EvClose d].
      destruct actual as [q|]; simpl in Hf.
      * destruct (heap σ !! q) as [b|] eqn:Hq; simpl in Hf;
          inversion Hf; subst σ'; simpl; repeat split; try lia.
        apply dom_insert_lookup_L. by rewrite Hp.
      * inversion Hf; subst σ'; simpl. repeat split; lia.
Qed.

(** ** Wrappers never nest *)

(** The store after [Reconfigure], however it ends: unchanged, or the
    field of the receiver overwritten with what the replacement held. *)
Lemma Reconfigure_heap r v σ σ' :
  final (Reconfigure E r v σ) = Some σ' ->
  heap σ' = heap σ \/
  exists p q b, r = Some p /\ heap σ !! q = Some b /\ heap σ' = <[p := b]> (heap σ).
Proof.
  intros Hf.
  destruct r as [p|]; [|left; simpl in Hf; congruence].
  destruct v as [| |d|actual|]; try (left; simpl in Hf; congruence).
  unfold Reconfigure in Hf. run.
  destruct (heap σ !! p) as [a|] eqn:Hp; [|left; simpl in Hf; congruence].
  destruct (TryClose_total E a σ) as (err & evs & Hc).
  rewrite Hc in Hf. simpl in Hf.
  destruct err as [e|]; simpl in Hf;
    (destruct actual as [q|]; simpl in Hf;
     [destruct (heap σ !! q) as [b|] eqn:Hq; simpl in Hf|]);
    inversion Hf; subst σ'; simpl; eauto 10.
Qed.

Lemma invoke_Done_heap depth b c σ r σ1 :
  invoke E depth b c σ = Done r σ1 -> heap σ1 = heap σ.
Proof. intros H. apply (invoke_heap E depth b c σ). by rewrite H. Qed.

Lemma invoke_Panic_heap depth b c σ σ1 :
  invoke E depth b c σ = Panic σ1 -> heap σ1 = heap σ.
Proof. intros H. apply (invoke_heap E depth b c σ). by rewrite H. Qed.

Lemma DoMove_heap depth m b σ σ' :
  final (DoMove E depth m b σ) = Some σ' -> heap σ' = heap σ.
Proof.
  unfold DoMove, Base_Spin, Base_MoveStraight. run.
  destruct (negb (PrimFloat.eqb (AngleDeg m) 0)).
  - destruct (invoke E depth b _ σ) as [r σ1| σ1 |] eqn:H1; simpl; try congruence.
    + pose proof (invoke_Done_heap _ _ _ _ _ _ H1) as Hh.
      destruct (reply_err r); simpl; [congruence|].
      destruct (negb (DistanceMillis m =? 0)); simpl; [|congruence].
      destruct (invoke E depth b _ σ1) as [r2 σ2| σ2 |] eqn:H2; simpl; try congruence.
      * intros [= <-]. rewrite <- Hh. exact (invoke_Done_heap _ _ _ _ _ _ H2).
      * intros [= <-]. rewrite <- Hh. exact (invoke_Panic_heap _ _ _ _ _ H2).
    + intros [= <-]. exact (invoke_Panic_heap _ _ _ _ _ H1).
  - destruct (negb (DistanceMillis m =? 0)); simpl; [|congruence].
    destruct (invoke E depth b _ σ) as [r2 σ2| σ2 |] eqn:H2; simpl; try congruence.
    + intros [= <-]. exact (invoke_Done_heap _ _ _ _ _ _ H2).
    + intros [= <-]. exact (invoke_Panic_heap _ _ _ _ _ H2).
Qed.

(** X6.  In a store where no wrapper holds a wrapper, none ever will:
    [WrapWithReconfigurable], [Reconfigure], every [Base] method and
    [DoMove] keep it that way, whatever their arguments and however they
    end. *)
Theorem flat_preserved (σ : state) :
  flat (heap σ) ->
  (forall v w e σ', WrapWithReconfigurable E v σ = Done (w, e) σ' -> flat (heap σ')) /\
  (forall r v σ', final (Reconfigure E r v σ) = Some σ' -> flat (heap σ')) /\
  (forall depth b c σ', final (invoke E depth b c σ) = Some σ' -> flat (heap σ')) /\
  (forall depth m b σ', final (DoMove E depth m b σ) = Some σ' -> flat (heap σ')).
Proof.
  intros Hflat. repeat split.
  - intros v w e σ' H. destruct v as [| |d|r|]; simpl in H; run;
      inversion H; subst; try exact Hflat.
    simpl. by apply map_Forall_insert_2.
  - intros r v σ' H.
    destruct (Reconfigure_heap _ _ _ _ H) as [->|(p & q & b & _ & Hq & ->)];
      [exact Hflat|].
    apply map_Forall_insert_2; [|exact Hflat].
    exact (map_Forall_lookup_1 _ _ _ _ Hflat Hq).
  - intros depth b c σ' H. by rewrite (invoke_heap E _ _ _ _ _ H).
  - intros depth m b σ' H. by rewrite (DoMove_heap _ _ _ _ _ H).
Qed.

(** X7.  In such a store a method called on a wrapper reaches the held
    instance in one step: the outcome is the same for every bound on the
    nesting, and it is never the outcome of running out of depth. *)
Theorem flat_one_hop (σ : state) (p : loc) (c : call) :
  flat (heap σ) ->
  (forall depth,
      invoke E (S depth) (VReconfigurableBase (Some p)) c σ
      = invoke E 1 (VReconfigurableBase (Some p)) c σ) /\
  invoke E 1 (VReconfigurableBase (Some p)) c σ <> Diverge.
Proof.
  intros Hflat. simpl. unfold with_actual.
  destruct (heap σ !! p) as [a|] eqn:Hp; [|split; [done|congruence]].
  pose proof (map_Forall_lookup_1 _ _ _ _ Hflat Hp) as Ha.
  destruct a as [| |d|r|]; simpl in Ha; try discriminate;
    split; try (intros []; reflexivity); simpl; unfold panic, drv_call; congruence.
Qed.

(** ** DoMove *)

(** X8.  [DoMove] on a wrapper is [DoMove] on the instance it holds: same
    calls, same result, same final state. *)
Theorem DoMove_through_wrapper depth (m : Move) (p : loc) (a : value) (σ : state) :
  heap σ !! p = Some a ->
  DoMove E (S depth) m (VReconfigurableBase (Some p)) σ = DoMove E depth m a σ.
Proof.
  intros Hp. unfold DoMove, Base_Spin, Base_MoveStraight.
  unfold mbind, mret, M_bind, M_ret, bind, ret.
  destruct (negb (PrimFloat.eqb (AngleDeg m) 0)).
  - rewrite (invoke_wrapper E depth p a _ σ Hp).
    destruct (invoke E depth a _ σ) as [r σ1| |] eqn:H1; try reflexivity.
    destruct (reply_err r); [reflexivity|].
    destruct (negb (DistanceMillis m =? 0)); [|reflexivity].
    assert (Hp1 : heap σ1 !! p = Some a)
      by (by rewrite (invoke_Done_heap _ _ _ _ _ _ H1)).
    by rewrite (invoke_wrapper E depth p a _ σ1 Hp1).
  - destruct (negb (DistanceMillis m =? 0)); [|reflexivity].
    by rewrite (invoke_wrapper E depth p a _ σ Hp).
Qed.

(** X9.  On a base that ends at driver [d], [DoMove] returns the first
    error among the calls it makes, and nil when there is none; the
    [MoveStraight] call is answered from a history that already contains
    the [Spin], which is not undone when [MoveStraight] fails. *)
Theorem DoMove_result depth (m : Move) (b : value) (σ : state) (d : driver) :
  target depth (heap σ) b = Some d ->
  let cs := CSpin (AngleDeg m) (DegsPerSec m) (Block m) in
  let cm := CMoveStraight (DistanceMillis m) (MillisPerSec m) (Block m) in
  let spin := negb (PrimFloat.eqb (AngleDeg m) 0%float) in
  let straight := negb (DistanceMillis m =? 0) in
  let spin_err := if spin then drv_answer E d (trace σ) cs else None in
  let hist := if spin then trace σ ++ [EvCall d cs] else trace σ in
  exists σ',
    DoMove E depth m b σ
    = Done (match spin_err with
            | Some e => Some e
            | None => if straight then drv_answer E d hist cm else None
            end) σ' /\
    heap σ' = heap σ /\
    (spin = true -> exists rest, trace σ' = trace σ ++ EvCall d cs :: rest).
Proof.
  intros Ht cs cm spin straight spin_err hist.
  unfold DoMove. fold spin straight cs cm.
  unfold mbind, M_bind, bind.
  destruct spin eqn:Hs; subst spin_err hist; simpl.
  - unfold cs at 1. rewrite (Base_Spin_target E _ _ _ _ _ _ _ Ht). fold cs.
    destruct (drv_answer E d (trace σ) cs) as [e|] eqn:Ha.
    + eexists. split; [reflexivity|]. split; [reflexivity|].
      intros _. by exists [].
    + destruct straight.
      * unfold cm at 1. rewrite Base_MoveStraight_target with (d := d) by exact Ht.
        eexists. split; [reflexivity|]. split; [reflexivity|].
        intros _. exists [EvCall d cm]. simpl. by rewrite <- app_assoc.
      * eexists. split; [reflexivity|]. split; [reflexivity|].
        intros _. by exists [].
  - unfold mret, M_ret, ret. destruct straight.
    + unfold cm at 1. rewrite Base_MoveStraight_target with (d := d) by exact Ht.
      eexists. split; [reflexivity|]. split; [reflexivity|]. discriminate.
    + eexists. split; [reflexivity|]. split; [reflexivity|]. discriminate.
Qed.

(** ** WrapWithReconfigurable, then use *)

(** X10.  Wrapping a driver records nothing, leaves every existing wrapper
    as it was, and gives a wrapper through which every method is answered
    by that driver. *)
Theorem Wrap_then_call (d : driver) (σ : state) :
  exists p σ',
    WrapWithReconfigurable E (VDriver d) σ
    = Done (VReconfigurableBase (Some p), None) σ' /\
    trace σ' = trace σ /\
    (forall q a, heap σ !! q = Some a -> heap σ' !! q = Some a) /\
    (forall depth c,
        invoke E (S depth) (VReconfigurableBase (Some p)) c σ'
        = drv_call E d c σ').
Proof.
  exists (fresh (dom (heap σ))), (set_actual (fresh (dom (heap σ))) (VDriver d) σ).
  assert (Hfresh : heap σ !! fresh (dom (heap σ)) = None)
    by apply not_elem_of_dom, is_fresh.
  split; [reflexivity|]. split; [reflexivity|]. split.
  - intros q a Hq. simpl. rewrite lookup_insert_ne; [exact Hq|].
    intros <-. congruence.
  - intros depth c. simpl. unfold with_actual. simpl.
    rewrite lookup_insert_eq. by destruct depth.
Qed.

(** X11.  Wrap two drivers one after the other and reconfigure the first
    wrapper with the second: the two wrappers are distinct, the whole
    sequence succeeds, and from then on every method called on the first
    wrapper is answered by the second driver. *)
Theorem Wrap_Wrap_Reconfigure (d1 d2 : driver) (σ : state) :
  exists p1 p2 σ1 σ2 σ3,
    WrapWithReconfigurable E (VDriver d1) σ
    = Done (VReconfigurableBase (Some p1), None) σ1 /\
    WrapWithReconfigurable E (VDriver d2) σ1
    = Done (VReconfigurableBase (Some p2), None) σ2 /\
    p1 <> p2 /\
    Reconfigure E (Some p1) (VReconfigurableBase (Some p2)) σ2 = Done None σ3 /\
    (forall depth c,
        invoke E (S depth) (VReconfigurableBase (Some p1)) c σ3
        = drv_call E d2 c σ3) /\
    (forall depth c,
        invoke E (S depth) (VReconfigurableBase (Some p2)) c σ3
        = drv_call E d2 c σ3).
Proof.
  set (p1 := fresh (dom (heap σ))).
  set (σ1 := set_actual p1 (VDriver d1) σ).
  set (p2 := fresh (dom (heap σ1))).
  set (σ2 := set_actual p2 (VDriver d2) σ1).
  assert (Hne : p1 <> p2).
  { intros Heq. pose proof (is_fresh (dom (heap σ1))) as Hf. fold p2 in Hf.
    apply Hf. rewrite <- Heq. subst σ1. simpl. rewrite dom_insert_L.
    apply elem_of_union_l, elem_of_singleton. reflexivity. }
  assert (H1 : heap σ2 !! p1 = Some (VDriver d1)).
  { subst σ2 σ1. simpl. rewrite lookup_insert_ne by congruence.
    apply lookup_insert_eq. }
  assert (H2 : heap σ2 !! p2 = Some (VDriver d2)).
  { subst σ2. simpl. apply lookup_insert_eq. }
  destruct (Base.TryClose E (VDriver d1) σ2) as [err σc| |] eqn:Hc;
    try (destruct (TryClose_total E (VDriver d1) σ2) as (? & ? & Hx); congruence).
  set (σ3 := set_actual p1 (VDriver d2)
                match err with
                | Some e => record (EvLog "error closing old" e) σc
                | None => σc
                end).
  assert (Hh : heap σ3 = <[p1 := VDriver d2]> (heap σ2)).
  { destruct (TryClose_total E (VDriver d1) σ2) as (err' & evs & Hx).
    rewrite Hc in Hx. inversion Hx; subst err' σc. subst σ3. by destruct err. }
  exists p1, p2, σ1, σ2, σ3.
  split; [reflexivity|]. split; [reflexivity|]. split; [exact Hne|].
  split; [by apply (Reconfigure_wrapper E _ _ _ _ _ _ _ H1 H2 Hc)|].
  split; intros depth c.
  - rewrite (invoke_wrapper E depth p1 (VDriver d2)); [by destruct depth|].
    rewrite Hh. apply lookup_insert_eq.
  - rewrite (invoke_wrapper E depth p2 (VDriver d2)); [by destruct depth|].
    rewrite Hh. by rewrite lookup_insert_ne.
Qed.

End Facts.

(** ** The theorems at work on the fake drivers *)

Lemma two_wrappers_flat : flat (heap two_wrappers).
Proof.
  unfold flat, two_wrappers. simpl.
  repeat (apply map_Forall_insert_2; [reflexivity|]).
  apply map_Forall_empty.
Qed.

Lemma Reconfigure_frame_witness :
  heap two_wrappers !! 0%nat = Some (VDriver 0%nat) /\
  heap two_wrappers !! 1%nat = Some (VDriver 1%nat) /\
  exists σ',
    Reconfigure fakes (Some 0%nat) (VReconfigurableBase (Some 1%nat)) two_wrappers
    = Done None σ' /\
    heap σ' !! 0%nat = Some (VDriver 1%nat) /\
    heap σ' !! 1%nat = Some (VDriver 1%nat).
Proof.
  split; [reflexivity|]. split; [reflexivity|].
  destruct (Reconfigure_frame fakes 0%nat 1%nat (VDriver 0%nat) (VDriver 1%nat)
              two_wrappers eq_refl eq_refl)
    as (σ' & H1 & _ & _ & H2 & H3).
  exists σ'. auto.
Defined.

Lemma Reconfigure_closes_old_witness :
  heap two_wrappers !! 0%nat = Some (VDriver 0%nat) /\
  heap two_wrappers !! 1%nat = Some (VDriver 1%nat) /\
  exists σ',
    Reconfigure fakes (Some 0%nat) (VReconfigurableBase (Some 1%nat)) two_wrappers
    = Done None σ' /\
    trace σ' = [EvClose 0%nat; EvLog "error closing old" "close failed"].
Proof.
  split; [reflexivity|]. split; [reflexivity|].
  destruct (Reconfigure_closes_old fakes 0%nat 1%nat 0%nat (VDriver 1%nat)
              two_wrappers eq_refl eq_refl)
    as (σ' & H1 & H2).
  exists σ'. auto.
Defined.

Lemma Reconfigure_self_witness :
  heap two_wrappers !! 0%nat = Some (VDriver 0%nat) /\
  drv_Close fakes 0%nat = Some (fun _ => Some "close failed") /\
  exists σ',
    Reconfigure fakes (Some 0%nat) (VReconfigurableBase (Some 0%nat)) two_wrappers
    = Done None σ' /\
    heap σ' = heap two_wrappers /\
    filter is_Close (trace σ') = [EvClose 0%nat].
Proof.
  split; [reflexivity|]. split; [reflexivity|].
  destruct (Reconfigure_self fakes 0%nat 0%nat (fun _ => Some "close failed")
              two_wrappers eq_refl eq_refl)
    as (σ' & H1 & H2 & H3 & _).
  exists σ'. auto.
Defined.

Lemma Reconfigure_nil_replacement_witness :
  heap two_wrappers !! 0%nat = Some (VDriver 0%nat) /\
  exists σ',
    Reconfigure fakes (Some 0%nat) (VReconfigurableBase None) two_wrappers = Panic σ' /\
    heap σ' !! 0%nat = Some (VDriver 0%nat) /\
    trace σ' = [EvClose 0%nat; EvLog "error closing old" "close failed"].
Proof.
  split; [reflexivity|].
  destruct (Reconfigure_nil_replacement fakes 0%nat (VDriver 0%nat) two_wrappers eq_refl)
    as (err & σ1 & Hc & _ & Hr).
  simpl in Hc. inversion Hc; subst err σ1. clear Hc.
  eexists. split; [exact Hr|]. split; reflexivity.
Defined.

Lemma Reconfigure_never_calls_witness :
  final (Reconfigure fakes (Some 0%nat) (VReconfigurableBase (Some 1%nat)) two_wrappers)
  = Some (mkState (<[0%nat := VDriver 1%nat]> (heap two_wrappers))
                  [EvClose 0%nat; EvLog "error closing old" "close failed"]) /\
  exists evs,
    [EvClose 0%nat; EvLog "error closing old" "close failed"] = [] ++ evs /\
    filter is_call evs = [].
Proof.
  split; [reflexivity|].
  destruct (Reconfigure_never_calls fakes (Some 0%nat) (VReconfigurableBase (Some 1%nat))
              two_wrappers _ eq_refl)
    as (evs & H1 & H2 & _).
  exists evs. auto.
Defined.

Lemma flat_preserved_witness :
  flat (heap two_wrappers) /\
  forall σ',
    final (Reconfigure fakes (Some 0%nat) (VReconfigurableBase (Some 1%nat)) two_wrappers)
    = Some σ' ->
    flat (heap σ').
Proof.
  split; [exact two_wrappers_flat|].
  destruct (flat_preserved fakes two_wrappers two_wrappers_flat) as (_ & H & _).
  exact (H (Some 0%nat) (VReconfigurableBase (Some 1%nat))).
Defined.

Lemma flat_one_hop_witness :
  flat (heap two_wrappers) /\
  invoke fakes 5 (VReconfigurableBase (Some 0%nat)) CStop two_wrappers
  = invoke fakes 1 (VReconfigurableBase (Some 0%nat)) CStop two_wrappers.
Proof.
  split; [exact two_wrappers_flat|].
  destruct (flat_one_hop fakes two_wrappers 0%nat CStop two_wrappers_flat) as (H & _).
  exact (H 4%nat).
Defined.

Lemma DoMove_through_wrapper_witness :
  heap two_wrappers !! 0%nat = Some (VDriver 0%nat) /\
  DoMove fakes 1 (mkMove 100 50%float 90%float 45%float true)
         (VReconfigurableBase (Some 0%nat)) two_wrappers
  = DoMove fakes 0 (mkMove 100 50%float 90%float 45%float true)
           (VDriver 0%nat) two_wrappers.
Proof.
  split; [reflexivity|].
  exact (DoMove_through_wrapper fakes 0 (mkMove 100 50%float 90%float 45%float true)
           0%nat (VDriver 0%nat) two_wrappers eq_refl).
Defined.

Lemma DoMove_result_witness :
  target 1 (heap two_wrappers) (VReconfigurableBase (Some 1%nat)) = Some 1%nat /\
  exists σ',
    DoMove fakes 1 (mkMove 100 50%float 90%float 45%float true)
           (VReconfigurableBase (Some 1%nat)) two_wrappers
    = Done (Some "cannot spin") σ'.
Proof.
  split; [reflexivity|].
  destruct (DoMove_result fakes 1 (mkMove 100 50%float 90%float 45%float true)
              (VReconfigurableBase (Some 1%nat)) two_wrappers 1%nat eq_refl)
    as (σ' & H & _).
  exists σ'. exact H.
Defined.

End BaseMore.

(* ===================================================================== *)
(** * Further properties of the servo client *)
(* ===================================================================== *)

Module ServoMore.
Import Servo ServoSpec.

(** X12.  [NewClient] returns the error of the dial, untouched and without
    a client, when the dial fails; otherwise it returns, without error, the
    very client [NewClientFromConn] builds on the dialled connection. *)
Theorem NewClient_dial (dial : string -> ClientConn * error) (n address : string) :
  match dial address with
  | (_, Some e) => NewClient dial n address tt = (None, Some e)
  | (conn, None) =>
      NewClient dial n address tt = (Some (NewClientFromConn conn n tt), None)
  end.
Proof.
  unfold NewClient, newServiceClient.
  by destruct (dial address) as [conn [e|]].
Qed.

(** What one call returns and does to the history. *)
Lemma Move_run c a h :
  Move c a h
  = (conn_Move (cc (client_stub (svc c))) h (Move_request c a),
     h ++ [EvMove (Move_request c a)]).
Proof.
  unfold Move, stub_Move, mbind, RPC_bind. simpl.
  by destruct (conn_Move _ _ _).
Qed.

Lemma AngularOffset_run c h :
  AngularOffset c h
  = (let (resp, err) := conn_AngularOffset (cc (client_stub (svc c))) h
                          (mkAngularOffsetRequest (name c)) in
     match err with
     | Some e => (0, Some e)
     | None => (uint8 (GetAngleDeg resp), None)
     end,
     h ++ [EvAngularOffset (mkAngularOffsetRequest (name c))]).
Proof.
  unfold AngularOffset, stub_AngularOffset, mbind, RPC_bind. simpl.
  by destruct (conn_AngularOffset _ _ _) as [resp [e|]].
Qed.

(** X13.  Against a service that reports the angle it was just moved to,
    [AngularOffset] after [Move a] returns [a] for every 8-bit [a]:
    widening on the way out and narrowing on the way back cancel, and the
    two requests go out in that order. *)
Theorem Move_then_AngularOffset (conn : ClientConn) (n : string) (a : Z)
    (h : list wire_event) :
  is_uint8 a ->
  conn_AngularOffset conn (h ++ [EvMove (mkMoveRequest n a)]) (mkAngularOffsetRequest n)
  = (Some (mkAngularOffsetResponse a), None) ->
  let c := NewClientFromConn conn n tt in
  (_ ← Move c a; AngularOffset c) h
  = ((a, None),
     h ++ [EvMove (mkMoveRequest n a); EvAngularOffset (mkAngularOffsetRequest n)]).
Proof.
  intros Ha Hecho c.
  unfold mbind at 1. unfold RPC_bind.
  rewrite (Move_run c a h). subst c. unfold Move_request. simpl.
  rewrite (uint32_id a (uint8_is_uint32 a Ha)).
  rewrite AngularOffset_run. simpl. rewrite Hecho. simpl.
  rewrite (uint8_id a Ha), <- app_assoc. reflexivity.
Qed.

Lemma Move_then_AngularOffset_witness :
  is_uint8 200 /\
  conn_AngularOffset echo_conn ([] ++ [EvMove (mkMoveRequest "servo1" 200)])
    (mkAngularOffsetRequest "servo1")
  = (Some (mkAngularOffsetResponse 200), None) /\
  (_ ← Move (NewClientFromConn echo_conn "servo1" tt) 200;
   AngularOffset (NewClientFromConn echo_conn "servo1" tt)) []
  = ((200, None),
     [EvMove (mkMoveRequest "servo1" 200);
      EvAngularOffset (mkAngularOffsetRequest "servo1")]).
Proof.
  assert (H : is_uint8 200) by (unfold is_uint8; lia).
  split; [exact H|]. split; [reflexivity|].
  exact (Move_then_AngularOffset echo_conn "servo1" 200 [] H eq_refl).
Defined.

Lemma run_op_sent c o h : (run_op c o h).2 = h ++ [sent c o].
Proof.
  destruct o as [a| |]; unfold run_op, mbind, RPC_bind.
  - by rewrite Move_run.
  - by rewrite AngularOffset_run.
  - reflexivity.
Qed.

(** X14.  Whatever calls are made on a client, in whatever order and
    whatever the connection answers, each call does exactly one thing to
    the connection: the history grows by one entry per call, in call
    order.  There is no retry after an error, no call is dropped after a
    Close, and the connection is closed as often as [Close] was called. *)
Theorem run_ops_history (conn : ClientConn) (n : string) (os : list op)
    (h : list wire_event) :
  let c := NewClientFromConn conn n tt in
  (run_ops c os h).2 = h ++ (sent c <$> os) /\
  closes (run_ops c os h).2
  = (closes h + length (filter (fun o => o = OpClose) os))%nat.
Proof.
  intros c.
  assert (Hh : forall os h, (run_ops c os h).2 = h ++ (sent c <$> os)).
  { clear os h. induction os as [|o os IH]; intros h; simpl.
    - by rewrite app_nil_r.
    - unfold mbind, RPC_bind.
      pose proof (run_op_sent c o h) as Ho.
      destruct (run_op c o h) as [u h1]. simpl in Ho. subst h1.
      rewrite IH, <- app_assoc. reflexivity. }
  split; [apply Hh|].
  rewrite Hh, closes_app. f_equal.
  clear h Hh. induction os as [|o os IH]; [reflexivity|].
  rewrite fmap_cons. change (sent c o :: (sent c <$> os))
    with ([sent c o] ++ (sent c <$> os)).
  rewrite closes_app, IH.
  destruct o; reflexivity.
Qed.

(** X16.  The narrowing of [AngularOffset] cannot tell apart wire angles
    that differ by a multiple of 256: a service answering [w + 256 * k]
    makes the client report the same angle as one answering [w], so a wire
    angle beyond 255 shows up as a valid, different angle and not as an
    error. *)
Theorem AngularOffset_aliases (conn : ClientConn) (n : string) (h : list wire_event)
    (w k : Z) :
  conn_AngularOffset conn h (mkAngularOffsetRequest n)
  = (Some (mkAngularOffsetResponse (w + 256 * k)), None) ->
  (AngularOffset (NewClientFromConn conn n tt) h).1 = (uint8 w, None) /\
  is_uint8 (uint8 w).
Proof.
  intros Hc. rewrite AngularOffset_run. simpl. rewrite Hc. simpl.
  split; [|apply uint8_range].
  f_equal. unfold uint8. change (2 ^ 8) with 256.
  rewrite Z.mul_comm. apply Z.mod_add. lia.
Qed.

Lemma AngularOffset_aliases_witness :
  conn_AngularOffset quiet_conn [] (mkAngularOffsetRequest "servo1")
  = (Some (mkAngularOffsetResponse (44 + 256 * 1)), None) /\
  (AngularOffset (NewClientFromConn quiet_conn "servo1" tt) []).1 = (44, None).
Proof.
  split; [reflexivity|].
  destruct (AngularOffset_aliases quiet_conn "servo1" [] 44 1 eq_refl) as [H _].
  exact H.
Defined.

End ServoMore.

(* ===================================================================== *)
(** * Properties of the fake input controller *)
(* ===================================================================== *)

Module FakeInputSpec.
Import FakeInput.

(** X15.  Built from a configuration, the fake controller answers every
    sequence of calls the same way and is never changed by it: [Controls]
    lists the configured controls, [LastEvents] is empty, and every
    [RegisterControlCallback] fails with "unsupported".  Built from
    anything but a non-nil [*Config], the constructor panics. *)
Theorem fake_controller_answers (attrs : attributes) :
  match attrs with
  | AttrConfig (Some conf) =>
      exists c,
        NewInputController attrs = Some (c, None) /\
        forall qs, serve_all c qs = (answer (controls conf) <$> qs, c)
  | AttrConfig None | AttrNil | AttrOther _ =>
      NewInputController attrs = None
  end.
Proof.
  destruct attrs as [|[conf|]|typ]; try reflexivity.
  eexists. split; [reflexivity|].
  induction qs as [|q qs IH]; [reflexivity|].
  simpl in *. destruct q; simpl; by rewrite IH.
Qed.

End FakeInputSpec.
